(** * dualconn: the SQL facade, the HTTP shell and the connection manager

    A shallow embedding of
    - [db] (the SQL execution and row-scanning facade),
    - [cmd/dualconn/main.go] (the HTTP handlers of the process shell),
    - the connection manager (target registry, dial coordinator and
      composite connection), whose Go source is not part of the tree and
      is therefore modelled from its written contract.

    Go strings are modelled by the sequence of runes that [range] yields
    from them; where the bytes of a string matter, [utf8] relates them to
    those runes. Go's [int] is a 64-bit two's complement integer carried
    in [Z] with its wrap-around written out. *)

From Stdlib Require Import ZArith Lia.
From stdpp Require Import base option list gmap strings.

Open Scope Z_scope.

(** ** Go strings and runes *)

Abbreviation rune := Z (only parsing).
Abbreviation gostring := (list Z) (only parsing).
Abbreviation byte := Z (only parsing).

(** An ASCII literal of the Go source, as its runes. *)
Definition lit (s : string) : gostring :=
  (fun a => Z.of_N (Ascii.N_of_ascii a)) <$> String.list_ascii_of_string s.

(** Go's [error] values are only ever observed through [Error()]. *)
Abbreviation error := (list Z) (only parsing).

Inductive Result (A : Type) : Type :=
| Ok (a : A)
| Err (e : error).
Arguments Ok {A} a.
Arguments Err {A} e.

(** Go's [int]: 64 bits, two's complement. *)
Definition wrap64 (z : Z) : Z := (z + 2 ^ 63) mod 2 ^ 64 - 2 ^ 63.
Definition int_add (a b : Z) : Z := wrap64 (a + b).
Definition maxInt : Z := 2 ^ 63 - 1.
Definition minInt : Z := - 2 ^ 63.

(** The case-mapping tables of package [unicode] outside ASCII: library
    data, taken as given. *)
Class CaseTables := {
  upper_table : rune -> rune;
  lower_table : rune -> rune
}.

Module unicode.

Definition MaxASCII : rune := 127.
Definition MaxLatin1 : rune := 255.

(** [unicode.IsSpace]: the Latin-1 switch, then the White_Space table. *)
Definition IsSpace (r : rune) : bool :=
  if (0 <=? r) && (r <=? MaxLatin1) then
    (r =? 9) || (r =? 10) || (r =? 11) || (r =? 12) || (r =? 13)
    || (r =? 32) || (r =? 133) || (r =? 160)
  else
    (r =? 5760) || ((8192 <=? r) && (r <=? 8202))
    || (r =? 8232) || (r =? 8233) || (r =? 8239) || (r =? 8287)
    || (r =? 12288).

(** [unicode.ToUpper] and [unicode.ToLower]: ASCII by arithmetic,
    everything else by table. *)
Definition ToUpper `{CaseTables} (r : rune) : rune :=
  if (0 <=? r) && (r <=? MaxASCII) then
    if (97 <=? r) && (r <=? 122) then r - 32 else r
  else upper_table r.

Definition ToLower `{CaseTables} (r : rune) : rune :=
  if (0 <=? r) && (r <=? MaxASCII) then
    if (65 <=? r) && (r <=? 90) then r + 32 else r
  else lower_table r.

End unicode.

Module strings.

(** [strings.Fields]: maximal runs of non-space runes, in order. [cur]
    is the field being read, reversed. *)
Fixpoint fields_from (cur : gostring) (s : gostring) : list gostring :=
  match s with
  | [] => match cur with [] => [] | _ => [rev cur] end
  | r :: s' =>
      if unicode.IsSpace r then
        match cur with
        | [] => fields_from [] s'
        | _ => rev cur :: fields_from [] s'
        end
      else fields_from (r :: cur) s'
  end.

Definition Fields (s : gostring) : list gostring := fields_from [] s.

Fixpoint HasPrefix (s prefix : gostring) : bool :=
  match prefix, s with
  | [], _ => true
  | _ :: _, [] => false
  | p :: prefix', c :: s' => (p =? c) && HasPrefix s' prefix'
  end.

(** [strings.Contains]: [substr] occurs somewhere in [s]. *)
Fixpoint Contains (s substr : gostring) : bool :=
  HasPrefix s substr ||
  match s with
  | [] => false
  | _ :: s' => Contains s' substr
  end.

Definition ToUpper `{CaseTables} (s : gostring) : gostring :=
  unicode.ToUpper <$> s.

Definition ToLower `{CaseTables} (s : gostring) : gostring :=
  unicode.ToLower <$> s.

End strings.

(** ** UTF-8: the bytes of a string and the runes read from it

    [for _, r := range s] decodes the bytes of [s] one rune at a time,
    reading U+FFFD and advancing by one byte where the bytes are not
    well formed; [string(rs)] on a slice of runes concatenates the
    encodings of the runes, U+FFFD standing in for what is no Unicode
    scalar value. The masks and shifts of package [unicode/utf8] are
    written as the arithmetic they perform on the ranges they are
    applied to. *)

Module utf8.

Definition RuneError : rune := 65533.
Definition MaxRune : rune := 1114111.
Definition surrogateMin : rune := 55296.
Definition surrogateMax : rune := 57343.

(** [utf8.ValidRune]: a code point up to [MaxRune] that is no surrogate. *)
Definition ValidRune (r : rune) : bool :=
  ((0 <=? r) && (r <? surrogateMin)) || ((surrogateMax <? r) && (r <=? MaxRune)).

(** A continuation byte, 0x80 to 0xBF. *)
Definition continuation (b : byte) : bool := (128 <=? b) && (b <=? 191).

(** The range accepted for the second byte after the first byte [b0]:
    narrower after 0xE0 and 0xF0 (no overlong form), after 0xED (no
    surrogate) and after 0xF4 (nothing above [MaxRune]). *)
Definition accept_lo (b0 : byte) : byte :=
  if b0 =? 224 then 160 else if b0 =? 240 then 144 else 128.

Definition accept_hi (b0 : byte) : byte :=
  if b0 =? 237 then 159 else if b0 =? 244 then 143 else 191.

(** [utf8.DecodeRuneInString]: the first rune of [s] and its width in
    bytes; [(RuneError, 1)] when the bytes at the front are not a
    well-formed sequence, [(RuneError, 0)] when there is none. *)
Definition DecodeRune (s : list byte) : rune * nat :=
  match s with
  | [] => (RuneError, 0%nat)
  | b0 :: s1 =>
      if (0 <=? b0) && (b0 <? 128) then (b0, 1%nat)
      else if (194 <=? b0) && (b0 <=? 223) then
        match s1 with
        | b1 :: _ =>
            if continuation b1 then ((b0 - 192) * 64 + (b1 - 128), 2%nat)
            else (RuneError, 1%nat)
        | _ => (RuneError, 1%nat)
        end
      else if (224 <=? b0) && (b0 <=? 239) then
        match s1 with
        | b1 :: b2 :: _ =>
            if (accept_lo b0 <=? b1) && (b1 <=? accept_hi b0) && continuation b2
            then ((b0 - 224) * 4096 + (b1 - 128) * 64 + (b2 - 128), 3%nat)
            else (RuneError, 1%nat)
        | _ => (RuneError, 1%nat)
        end
      else if (240 <=? b0) && (b0 <=? 244) then
        match s1 with
        | b1 :: b2 :: b3 :: _ =>
            if (accept_lo b0 <=? b1) && (b1 <=? accept_hi b0)
               && continuation b2 && continuation b3
            then ((b0 - 240) * 262144 + (b1 - 128) * 4096 + (b2 - 128) * 64
                  + (b3 - 128), 4%nat)
            else (RuneError, 1%nat)
        | _ => (RuneError, 1%nat)
        end
      else (RuneError, 1%nat)
  end.

(** [utf8.AppendRune]: the encoding of [r], that of [RuneError] when [r]
    is negative, a surrogate or above [MaxRune]. *)
Definition EncodeRune (r : rune) : list byte :=
  if (0 <=? r) && (r <=? 127) then [r]
  else if (0 <=? r) && (r <=? 2047) then [192 + r / 64; 128 + r mod 64]
  else if negb (ValidRune r) then [239; 191; 189]
  else if r <=? 65535 then [224 + r / 4096; 128 + r / 64 mod 64; 128 + r mod 64]
  else [240 + r / 262144; 128 + r / 4096 mod 64; 128 + r / 64 mod 64; 128 + r mod 64].

(** The iterations of [range] over the bytes [s]: the rune and the width
    read at each step. [skip] counts the bytes that still belong to the
    rune read last. *)
Fixpoint decode_from (skip : nat) (s : list byte) : list (rune * nat) :=
  match s with
  | [] => []
  | _ :: s' =>
      match skip with
      | S k => decode_from k s'
      | O => DecodeRune s :: decode_from (pred (DecodeRune s).2) s'
      end
  end.

Definition decode (s : list byte) : list (rune * nat) := decode_from 0 s.

(** The runes [range] yields from the bytes [s]; [[]rune(s)] is the same. *)
Definition runes (s : list byte) : gostring := (decode s).*1.

(** [string(rs)]: the bytes of the string made of the runes [rs]. *)
Definition bytes (rs : gostring) : list byte := rs ≫= EncodeRune.

(** [utf8.ValidString]: no step of the decoding is an error; an encoded
    U+FFFD is read with width 3 and is none. *)
Definition ValidString (s : list byte) : bool :=
  forallb (fun step => negb ((step.1 =? RuneError) && (step.2 =? 1)%nat)) (decode s).

End utf8.

(** ** Dynamic values, time and the libraries the facade calls *)

Abbreviation Time := Z (only parsing).
Abbreviation Duration := Z (only parsing).

Definition Millisecond : Duration := 1000000.
Definition Second : Duration := 1000 * Millisecond.

Inductive IntKind :=
| KInt8 | KInt16 | KInt32 | KInt | KInt64
| KUint8 | KUint16 | KUint32 | KUint | KUint64.

Inductive FloatKind := KFloat32 | KFloat64.

(** What an [any] can hold at run time. Floats are carried as their bit
    pattern; [VOther] stands for every dynamic type the facade has no
    case for (named types included). *)
Inductive any :=
| Nil
| VBool (b : bool)
| VInt (k : IntKind) (n : Z)
| VFloat (k : FloatKind) (bits : Z)
| VString (s : gostring)
| VBytes (data : list byte)
| VTime (t : Time)
| VError (e : error)
| VOther (type_name : gostring) (payload : Z).

(** [context.Context], as far as the facade builds it. *)
Inductive Context :=
| Background
| WithTimeout (parent : Context) (timeout : Duration).

#[warnings="-register-all"] Inductive JSON :=
| JNull
| JBool (b : bool)
| JNumber (text : gostring)
| JString (s : gostring)
| JArray (items : list JSON)
| JObject (fields : list (gostring * JSON)).

(** The two types [aliasConverters] converts to. *)
Inductive AliasType := TimeType | StringType.

(** Functions of [database/sql], [fmt], [reflect], [time] and
    [encoding/json] that the facade calls: library code, taken as
    given. *)
Class Libs := {
  sql_NullBool_Scan : any -> bool * option error;
  sql_NullInt64_Scan : any -> Z * option error;
  sql_NullFloat64_Scan : any -> Z * option error;
  sql_NullString_Scan : any -> gostring * option error;
  sql_scan_arity_error : nat -> nat -> error;
  sql_scan_column_error : nat -> error -> error;
  fmt_Sprintf_v : any -> gostring;
  string_of_bytes : list byte -> gostring;
  reflect_CanConvert : any -> AliasType -> bool;
  reflect_Convert_Time : any -> Time;
  reflect_Convert_String : any -> gostring;
  time_Clock : Time -> Z * Z * Z;
  time_Nanosecond : Time -> Z;
  time_Format : Time -> gostring -> gostring;
  time_Sub : Time -> Time -> Duration;
  Duration_String : Duration -> gostring;
  json_Marshal_row : gmap gostring any -> Result JSON
}.

Module multierr.

(** [multierr.Append]: nil when both are nil, the non-nil one when one
    is, and otherwise an error printing both, joined by "; ". *)
Definition Append (e1 e2 : option error) : option error :=
  match e1, e2 with
  | None, None => None
  | Some a, None => Some a
  | None, Some b => Some b
  | Some a, Some b => Some (a ++ lit "; " ++ b)
  end.

End multierr.

Module sql.

Record ColumnType := { DatabaseTypeName : gostring }.

(** A [*sql.Rows]: what [Columns] and [ColumnTypes] answer, the rows the
    driver still has to deliver, the error (if any) that ends the
    iteration, and the cursor state [Next] maintains. *)
Record Rows := {
  columns : Result (list gostring);
  columnTypes : Result (list ColumnType);
  pending : list (list any);
  eof_err : option error;
  lastcols : list any;
  lasterr : option error
}.

Definition Columns (r : Rows) : Result (list gostring) := columns r.
Definition ColumnTypes (r : Rows) : Result (list ColumnType) := columnTypes r.

Definition ncols (r : Rows) : nat :=
  match columns r with Ok cs => length cs | Err _ => 0%nat end.

(** [Next] on a cursor whose driver has [row] ready: the row is copied
    into [lastcols], which has one slot per column. *)
Definition advance (r : Rows) (row : list any) (rest : list (list any)) : Rows :=
  {| columns := columns r; columnTypes := columnTypes r;
     pending := rest; eof_err := eof_err r;
     lastcols := resize (ncols r) Nil row; lasterr := None |}.

(** [Next] on a cursor whose driver has no more rows. *)
Definition finish (r : Rows) : Rows :=
  {| columns := columns r; columnTypes := columnTypes r;
     pending := []; eof_err := eof_err r;
     lastcols := []; lasterr := eof_err r |}.

Definition Next (r : Rows) : Rows * bool :=
  match pending r with
  | [] => (finish r, false)
  | row :: rest => (advance r row rest, true)
  end.

Definition Err_ (r : Rows) : option error := lasterr r.

(** The result of [Exec]: the two accessors of [sql.Result]. *)
Record Result_ := {
  LastInsertId : Z * option error;
  RowsAffected : Z * option error
}.

End sql.

(** The effects of the process: a database reachable through
    [QueryContext] / [ExecContext], and a clock. [W] is the state of the
    world outside the process. *)
Class Queryer (W : Type) := {
  QueryContext : Context -> gostring -> list any -> W -> W * Result sql.Rows
}.

Class ExecAware (W : Type) := {
  ExecContext : Context -> gostring -> list any -> W -> W * Result sql.Result_
}.

Class DB (W : Type) := {
  DB_ExecAware :: ExecAware W;
  DB_Queryer :: Queryer W
}.

Class Clock (W : Type) := {
  time_Now : W -> W * Time;
  time_Sleep : Duration -> W -> W
}.

(** ** Package [db]: the SQL facade *)

Module db.

Record QueryResult := {
  Error : gostring;
  Cost : gostring;
  Rows : list (gmap gostring any)
}.

(** [type ValueType int], with the constants that [iota] numbers from 1
    (the blank identifier takes 0). *)
Abbreviation ValueType := Z (only parsing).
Definition ValueTypeBool : ValueType := 1.
Definition ValueTypeInt64 : ValueType := 2.
Definition ValueTypeFloat64 : ValueType := 3.
Definition ValueTypeString : ValueType := 4.
Definition ValueTypeBytes : ValueType := 5.
Definition ValueTypeOther : ValueType := 6.

Record NullAny := {
  ns_Value : any;
  ns_ValueType : ValueType;
  ns_Valid : bool
}.

Record JsonRowsScanner := {
  start : Time;
  Header : list gostring;
  Limit : Z;
  Offset : Z;
  j_Rows : list (gmap gostring any)
}.

Record RowScanner := {
  rs_Rows : sql.Rows;
  Types : list ValueType;
  LowerColumns : list gostring;
  Columns : list gostring
}.

Inductive PingEvent :=
| Probe (query : gostring) (succeeded : bool)
| Slept (d : Duration).

(** [Contains(s, ss...)]: some element of [ss] occurs in [s]. *)
Fixpoint Contains (s : gostring) (ss : list gostring) : bool :=
  match ss with
  | [] => false
  | of_ :: ss' => if strings.Contains s of_ then true else Contains s ss'
  end.

Definition quote : rune := 39.
Definition escape : rune := 92.

(** [Quote]: single quotes around [s], each single quote inside
    preceded by a backslash. [out] is the slice built so far; [s] is the
    runes [range] reads from the argument and the result the runes of
    [out], before [string(out)] encodes them. *)
Fixpoint Quote_loop (out : gostring) (s : gostring) : gostring :=
  match s with
  | [] => out
  | r :: s' =>
      if r =? quote then Quote_loop (out ++ [escape; r]) s'
      else Quote_loop (out ++ [r]) s'
  end.

Definition Quote (s : gostring) : gostring :=
  Quote_loop [quote] s ++ [quote].

(** [Quote] from the bytes of its argument to the bytes of its result:
    [range] decodes the argument, [string(out)] encodes the runes
    collected. Bytes that are not well-formed UTF-8 come out as the
    encoding of U+FFFD. *)
Definition Quote_bytes (s : list byte) : list byte :=
  utf8.bytes (Quote (utf8.runes s)).

Definition NewJsonRowsScanner (offset limit : Z) : JsonRowsScanner :=
  {| start := 0; Header := []; Limit := limit; Offset := offset; j_Rows := [] |}.

Definition StartRows (j : JsonRowsScanner) (header : list gostring) : JsonRowsScanner :=
  {| start := start j; Header := header; Limit := Limit j; Offset := Offset j;
     j_Rows := j_Rows j |}.

(** The loop [for i, h := range j.Header { row[h] = columns[i] }];
    [None] is the index-out-of-range panic. *)
Fixpoint fill_row (header : list gostring) (i : nat) (columns : list any)
    (row : gmap gostring any) : option (gmap gostring any) :=
  match header with
  | [] => Some row
  | h :: header' =>
      match columns !! i with
      | None => None
      | Some c => fill_row header' (S i) columns (<[h := c]> row)
      end
  end.

(** [AddRow]: the updated scanner and whether scanning goes on; [None]
    when it panics. *)
Definition AddRow (j : JsonRowsScanner) (rowIndex : Z) (columns : list any)
    : option (JsonRowsScanner * bool) :=
  if (0 <? Offset j) && (rowIndex <? Offset j) then Some (j, true)
  else if int_add (Limit j) (Offset j) <? int_add rowIndex 1 then Some (j, false)
  else
    match fill_row (Header j) 0 columns ∅ with
    | None => None
    | Some row =>
        Some ({| start := start j; Header := Header j; Limit := Limit j;
                 Offset := Offset j; j_Rows := j_Rows j ++ [row] |},
              (Limit j <=? 0)
              || (int_add rowIndex 1 <=? int_add (Limit j) (Offset j)))
    end.

Section WithLibs.
Context `{CaseTables} `{Libs}.

(** The type switch of [NewRowScanner], first match wins. *)
Definition columnValueType (columnType : sql.ColumnType) : ValueType :=
  let typeName := strings.ToUpper (sql.DatabaseTypeName columnType) in
  if Contains typeName [lit "CHAR"; lit "TEXT"; lit "NVARCHAR"] then ValueTypeString
  else if Contains typeName [lit "BOOL"] then ValueTypeBool
  else if Contains typeName [lit "BOOL"; lit "INT"; lit "NUMBER"] then ValueTypeInt64
  else if Contains typeName [lit "DECIMAL"] then ValueTypeFloat64
  else if Contains typeName [lit "LOB"] then ValueTypeBytes
  else ValueTypeOther.

Definition NewRowScanner (rows : sql.Rows) : Result RowScanner :=
  match sql.Columns rows with
  | Err e => Err e
  | Ok columns =>
      match sql.ColumnTypes rows with
      | Err e => Err e
      | Ok columnTypes =>
          Ok {| rs_Rows := rows;
                Types := columnValueType <$> columnTypes;
                LowerColumns := [];
                Columns := columns |}
      end
  end.

Definition set_value (ns : NullAny) (t : ValueType) (v : any) : NullAny :=
  {| ns_Value := v; ns_ValueType := t; ns_Valid := ns_Valid ns |}.

Record AliasConvert := {
  ac_Type : AliasType;
  Converter : AliasType -> any -> NullAny -> NullAny
}.

Definition aliasConverters : list AliasConvert :=
  [ {| ac_Type := TimeType;
       Converter := fun typ rv ns =>
         let t := reflect_Convert_Time rv in
         let '(hour, minute, sec) := time_Clock t in
         let nsec := time_Nanosecond t in
         let text :=
           if (hour =? 0) && (minute =? 0) && (sec =? 0) && (nsec =? 0)
           then time_Format t (lit "2006-01-02")
           else if nsec =? 0 then time_Format t (lit "2006-01-02 15:04:05")
           else time_Format t (lit "2006-01-02 15:04:05.999999999") in
         set_value ns ValueTypeString (VString text) |};
    {| ac_Type := StringType;
       Converter := fun typ rv ns =>
         set_value ns ValueTypeString (VString (reflect_Convert_String rv)) |} ].

Fixpoint convertAlias_loop (aliases : list AliasConvert) (ns : NullAny) (value : any)
    : NullAny :=
  match aliases with
  | [] => set_value ns (ns_ValueType ns) value
  | alias :: aliases' =>
      if reflect_CanConvert value (ac_Type alias)
      then Converter alias (ac_Type alias) value ns
      else convertAlias_loop aliases' ns value
  end.

Definition convertAlias (ns : NullAny) (value : any) : NullAny :=
  convertAlias_loop aliasConverters ns value.

(** The [default:] arm of [NullAny.Scan], a switch on the dynamic type of
    [value]; it always returns nil. *)
Definition scan_by_dynamic_type (ns : NullAny) (value : any) : NullAny :=
  match value with
  | VInt _ _ => set_value ns ValueTypeInt64 value
  | VFloat _ _ => set_value ns ValueTypeFloat64 value
  | VString _ => set_value ns ValueTypeString value
  | VBytes nv =>
      if Z.of_nat (length nv) <? 1024 then
        if ns_ValueType ns =? ValueTypeOther
        then set_value ns ValueTypeString (VString (string_of_bytes nv))
        else ns
      else set_value ns ValueTypeBytes value
  | _ => convertAlias ns value
  end.

Definition is_nil (v : any) : bool :=
  match v with Nil => true | _ => false end.

Definition is_bytes (v : any) : bool :=
  match v with VBytes _ => true | _ => false end.

(** [NullAny.Scan]: the receiver after the call, and the error. *)
Definition NullAny_Scan (ns : NullAny) (value : any) : NullAny * option error :=
  let ns := {| ns_Value := ns_Value ns; ns_ValueType := ns_ValueType ns;
               ns_Valid := negb (is_nil value) |} in
  if negb (ns_Valid ns) then (ns, None)
  else if ns_ValueType ns =? ValueTypeBool then
    let (v0, err) := sql_NullBool_Scan value in
    (set_value ns (ns_ValueType ns) (VBool v0), err)
  else if ns_ValueType ns =? ValueTypeInt64 then
    let (v0, err) := sql_NullInt64_Scan value in
    (set_value ns (ns_ValueType ns) (VInt KInt64 v0), err)
  else if ns_ValueType ns =? ValueTypeFloat64 then
    let (v1, err) := sql_NullFloat64_Scan value in
    (set_value ns (ns_ValueType ns) (VFloat KFloat64 v1), err)
  else if ns_ValueType ns =? ValueTypeString then
    let (v2, err) := sql_NullString_Scan value in
    (set_value ns (ns_ValueType ns) (VString v2), err)
  else if (ns_ValueType ns =? ValueTypeBytes) && is_bytes value then
    (set_value ns (ns_ValueType ns) value, None)
  else (scan_by_dynamic_type ns value, None).

(** [sql.Rows.Scan] into destinations that are all [*NullAny]: each
    destination scans its column through its [Scan] method; the first
    failure stops the scan. [i] is the column index. *)
Fixpoint scan_columns (i : nat) (dest : list NullAny) (src : list any)
    : list NullAny * option error :=
  match dest, src with
  | d :: dest', sv :: src' =>
      match NullAny_Scan d sv with
      | (d', Some err) => (d' :: dest', Some (sql_scan_column_error i err))
      | (d', None) =>
          let (rest, err) := scan_columns (S i) dest' src' in
          (d' :: rest, err)
      end
  | _, _ => (dest, None)
  end.

Definition Rows_Scan (rows : sql.Rows) (dest : list NullAny)
    : list NullAny * option error :=
  if bool_decide (length dest = length (sql.lastcols rows))
  then scan_columns 0 dest (sql.lastcols rows)
  else (dest, Some (sql_scan_arity_error (length (sql.lastcols rows)) (length dest))).

Definition getColValue (n : NullAny) : any :=
  if negb (ns_Valid n) then Nil
  else if (ns_ValueType n =? ValueTypeInt64) || (ns_ValueType n =? ValueTypeFloat64)
  then ns_Value n
  else
    match (ns_ValueType n =? ValueTypeBytes), ns_Value n with
    | true, VBytes data => VString (string_of_bytes data)
    | _, _ => VString (Quote (fmt_Sprintf_v (ns_Value n)))
    end.

(** [RowScanner.Next] moves the cursor of the [sql.Rows] the scanner
    points to. *)
Definition RowScanner_Next (s : RowScanner) : RowScanner * bool :=
  let (rows', more) := sql.Next (rs_Rows s) in
  ({| rs_Rows := rows'; Types := Types s; LowerColumns := LowerColumns s;
      Columns := Columns s |}, more).

Definition RowScanner_Scan (s : RowScanner) : Result (list any) :=
  let values :=
    (fun t => {| ns_Value := Nil; ns_ValueType := t; ns_Valid := false |}) <$> Types s in
  match Rows_Scan (rs_Rows s) values with
  | (_, Some err) => Err err
  | (values', None) => Ok (getColValue <$> values')
  end.

(** The loop [for ; scan.Next(); rowNum++] of [JsonRowsScanner.Scan],
    followed by its [return rows.Err()]. The recursion is on the rows the
    driver has yet to deliver, [pending], which is [sql.pending] of the
    cursor [scan] points to. The result is the scanner, the cursor and
    the returned error; [None] is a panic inside [AddRow]. *)
Fixpoint scan_loop (pending : list (list any)) (scan : RowScanner)
    (j : JsonRowsScanner) (rowNum : Z)
    : option (JsonRowsScanner * sql.Rows * option error) :=
  match pending with
  | [] =>
      let rows' := sql.finish (rs_Rows scan) in
      Some (j, rows', sql.Err_ rows')
  | r :: rest =>
      let scan' :=
        {| rs_Rows := sql.advance (rs_Rows scan) r rest; Types := Types scan;
           LowerColumns := LowerColumns scan; Columns := Columns scan |} in
      match RowScanner_Scan scan' with
      | Err err => Some (j, rs_Rows scan', Some err)
      | Ok row =>
          match AddRow j rowNum row with
          | None => None
          | Some (j', false) => Some (j', rs_Rows scan', sql.Err_ (rs_Rows scan'))
          | Some (j', true) => scan_loop rest scan' j' (int_add rowNum 1)
          end
      end
  end.

Definition JsonRowsScanner_Scan (j : JsonRowsScanner) (rows : sql.Rows)
    : option (JsonRowsScanner * sql.Rows * option error) :=
  match NewRowScanner rows with
  | Err err => Some (j, rows, Some err)
  | Ok scan =>
      match sql.Columns rows with
      | Err err => Some (j, rows, Some err)
      | Ok columns => scan_loop (sql.pending rows) scan (StartRows j columns) 0
      end
  end.

Section WithWorld.
Context {W : Type} `{DB W} `{Clock W}.

(** The interface [RowsScanner]; [StartExecute] and [Complete] read the
    clock. *)
Class RowsScanner (S : Type) := {
  rs_StartExecute : S -> W -> W * S;
  rs_StartRows : S -> list gostring -> S;
  rs_AddRow : S -> Z -> list any -> option (S * bool);
  rs_Complete : S -> QueryResult -> W -> W * QueryResult
}.

Definition StartExecute (j : JsonRowsScanner) (w : W) : W * JsonRowsScanner :=
  let (w', now) := time_Now w in
  (w', {| start := now; Header := Header j; Limit := Limit j; Offset := Offset j;
          j_Rows := j_Rows j |}).

Definition Complete (j : JsonRowsScanner) (result : QueryResult) (w : W)
    : W * QueryResult :=
  let (w', now) := time_Now w in
  (w', {| Error := Error result;
          Cost := Duration_String (time_Sub now (start j));
          Rows := j_Rows j |}).

#[global] Instance JsonRowsScanner_RowsScanner : RowsScanner JsonRowsScanner := {
  rs_StartExecute := StartExecute;
  rs_StartRows := StartRows;
  rs_AddRow := AddRow;
  rs_Complete := Complete
}.

(** The loop of [PingDB], with [n] iterations left; besides the world it
    returns what it did, in order. *)
Fixpoint ping_loop (n : nat) (timeoutCtx : Context) (w : W) : W * list PingEvent :=
  match n with
  | O => (w, [])
  | S n' =>
      match QueryContext timeoutCtx (lit "select 1") [] w with
      | (w1, Err _) =>
          let w2 := time_Sleep (100 * Millisecond) w1 in
          let (w3, events) := ping_loop n' timeoutCtx w2 in
          (w3, Probe (lit "select 1") false :: Slept (100 * Millisecond) :: events)
      | (w1, Ok rows) => (w1, [Probe (lit "select 1") true])
      end
  end.

Definition PingDB (ctx : Context) (timeout : Duration) (w : W)
    : W * list PingEvent * option error :=
  let timeoutCtx := WithTimeout ctx timeout in
  let (w', events) := ping_loop 3 timeoutCtx w in
  (w', events, None).

(** Observers for the statements below: the world after the probe of
    [PingDB], the world in which the statement itself is sent (after the
    clock reading of [StartExecute]), and that reading. *)
Definition pinged (ctx : Context) (w : W) : W := (PingDB ctx (3 * Second) w).1.1.
Definition sent (ctx : Context) (w : W) : W := (time_Now (pinged ctx w)).1.
Definition started (ctx : Context) (w : W) : Time := (time_Now (pinged ctx w)).2.

Definition error_result (err : error) : QueryResult :=
  {| Error := err; Cost := []; Rows := [] |}.

Definition empty_result : QueryResult :=
  {| Error := []; Cost := []; Rows := [] |}.

Definition Query (ctx : Context) (q : gostring) (args : list any)
    (scanner : JsonRowsScanner) (w : W) : option (W * QueryResult) :=
  let '(w1, _, _) := PingDB ctx (3 * Second) w in
  let (w2, scanner1) := StartExecute scanner w1 in
  match QueryContext ctx q args w2 with
  | (w3, Err err) => Some (w3, error_result err)
  | (w3, Ok rows) =>
      match JsonRowsScanner_Scan scanner1 rows with
      | None => None
      | Some (_, _, Some err) => Some (w3, error_result err)
      | Some (scanner2, _, None) => Some (Complete scanner2 empty_result w3)
      end
  end.

Definition Exec {S : Type} `{RowsScanner S} (ctx : Context) (q : gostring)
    (args : list any) (rowsScanner : S) (w : W) : option (W * QueryResult) :=
  let '(w1, _, _) := PingDB ctx (3 * Second) w in
  let (w2, sc1) := rs_StartExecute rowsScanner w1 in
  match ExecContext ctx q args w2 with
  | (w3, Err err) => Some (w3, error_result err)
  | (w3, Ok result) =>
      let (id, err1) := sql.LastInsertId result in
      let (affected, err2) := sql.RowsAffected result in
      let added :=
        match multierr.Append err1 err2 with
        | Some err =>
            rs_AddRow
              (rs_StartRows sc1 [lit "lastInsertId"; lit "rowsAffected"; lit "error"])
              0 [VInt KInt64 id; VInt KInt64 affected; VError err]
        | None =>
            rs_AddRow
              (rs_StartRows sc1 [lit "lastInsertId"; lit "rowsAffected"])
              0 [VInt KInt64 id; VInt KInt64 affected]
        end in
      match added with
      | None => None
      | Some (sc2, _) => Some (rs_Complete sc2 empty_result w3)
      end
  end.

Definition RunSQL (ctx : Context) (query : gostring) (w : W)
    : option (W * QueryResult) :=
  let scanner := NewJsonRowsScanner 0 30 in
  match strings.Fields query with
  | [] => None
  | first :: _ =>
      let firstWord := strings.ToLower first in
      if bool_decide (firstWord = lit "select") || bool_decide (firstWord = lit "show")
         || bool_decide (firstWord = lit "desc")
         || bool_decide (firstWord = lit "describe")
      then Query ctx query [] scanner w
      else if bool_decide (firstWord = lit "insert") then
        if strings.Contains (strings.ToLower query) (lit "returning")
        then Query ctx query [] scanner w
        else Exec ctx query [] scanner w
      else Exec ctx query [] scanner w
  end.

End WithWorld.

End WithLibs.

End db.

(** ** [encoding/json] on a [QueryResult], and [net/http] as the shell uses it *)

Module json.

Section WithLibs.
Context `{Libs}.

Fixpoint marshal_rows (rows : list (gmap gostring any)) : Result (list JSON) :=
  match rows with
  | [] => Ok []
  | row :: rows' =>
      match json_Marshal_row row with
      | Err e => Err e
      | Ok doc =>
          match marshal_rows rows' with
          | Err e => Err e
          | Ok docs => Ok (doc :: docs)
          end
      end
  end.

(** The struct tags of [QueryResult]: three fields, in declaration
    order, each with [omitempty]. *)
Definition Marshal (qr : db.QueryResult) : Result JSON :=
  let error_field :=
    match db.Error qr with [] => [] | _ => [(lit "error", JString (db.Error qr))] end in
  let cost_field :=
    match db.Cost qr with [] => [] | _ => [(lit "cost", JString (db.Cost qr))] end in
  match db.Rows qr with
  | [] => Ok (JObject (error_field ++ cost_field))
  | _ =>
      match marshal_rows (db.Rows qr) with
      | Err e => Err e
      | Ok docs => Ok (JObject (error_field ++ cost_field ++ [(lit "rows", JArray docs)]))
      end
  end.

End WithLibs.

End json.

Module http.

Definition StatusOK : Z := 200.
Definition StatusNotFound : Z := 404.

(** [r.URL.Query()] and [r.Context()]. *)
Record Request := {
  URL_Query : gmap gostring (list gostring);
  req_Context : Context
}.

(** [url.Values.Get]: the first value of the key, or the empty string. *)
Definition Get (values : gmap gostring (list gostring)) (key : gostring) : gostring :=
  match values !! key with
  | Some (v :: _) => v
  | _ => []
  end.

(** A [ResponseWriter]: the status passed to [WriteHeader], if it was
    called, and the documents written to the body. *)
Record ResponseWriter := {
  wrote_header : option Z;
  body : list JSON
}.

Definition new_writer : ResponseWriter := {| wrote_header := None; body := [] |}.

Definition WriteHeader (w : ResponseWriter) (code : Z) : ResponseWriter :=
  match wrote_header w with
  | Some _ => w
  | None => {| wrote_header := Some code; body := body w |}
  end.

(** A write to the body sends the header with [StatusOK] first, if none
    was sent. *)
Definition Write (w : ResponseWriter) (doc : JSON) : ResponseWriter :=
  {| wrote_header := Some (default StatusOK (wrote_header w));
     body := body w ++ [doc] |}.

(** The status the client receives once the handler has returned. *)
Definition status_sent (w : ResponseWriter) : Z :=
  default StatusOK (wrote_header w).

End http.

(** ** [cmd/dualconn/main.go]: the handlers *)

Module main.

Section Query.
Context `{CaseTables} `{Libs} {W : Type} `{DB W} `{Clock W}.

(** The handler of [/query]: the world, the response and the lines
    logged; [None] when the handler panics. *)
Definition handle_query (w : http.ResponseWriter) (r : http.Request) (world : W)
    : option (W * http.ResponseWriter * list error) :=
  match db.RunSQL (http.req_Context r) (http.Get (http.URL_Query r) (lit "q")) world with
  | None => None
  | Some (world', queryResult) =>
      match json.Marshal queryResult with
      | Err err => Some (world', w, [err])
      | Ok doc => Some (world', http.Write w doc, [])
      end
  end.

End Query.

Section Enable.
(** [dualconn.Manager] and its method [Enable] are outside the tree; the
    handler is modelled over any manager whose [Enable] takes the target
    and the flag and answers whether the target is known. *)
Variable Manager : Type.
Variable Enable : Manager -> gostring -> bool -> Manager * bool.

Definition handle_enable (w : http.ResponseWriter) (r : http.Request) (mgr : Manager)
    : Manager * http.ResponseWriter :=
  let target := http.Get (http.URL_Query r) (lit "target") in
  let disabled := bool_decide (http.Get (http.URL_Query r) (lit "disable") = lit "1") in
  let (mgr', found) := Enable mgr target disabled in
  if negb found then (mgr', http.WriteHeader w http.StatusNotFound)
  else (mgr', w).

End Enable.

End main.

(** ** Package [dualconn]: the connection manager

    The Go source of the manager is not in the tree. Its data model and
    operations are modelled from the written contract of the Target
    Registry, the Dial Coordinator and the Composite Connection. *)

Module dualconn.

(** Modelled from the spec: the record ConnectionStats of the data model
    (the Go struct behind the [conns] entries is missing). *)
Record ConnectionStats := {
  id : gostring;
  bytesRead : Z;
  bytesWritten : Z;
  lastReadAt : option Time;
  lastWriteAt : option Time;
  closed : bool
}.

(** Modelled from the spec: the record Target of the data model (the Go
    struct is missing); [connections] maps connection identifiers to
    their statistics. *)
Record Target := {
  address : gostring;
  enabled : bool;
  lastDialAttempt : option Time;
  connections : gmap gostring ConnectionStats
}.

(** Modelled from the spec: the record Manager of the data model (the Go
    struct is missing); the order of [targets] is the configured order. *)
Record Manager := {
  dialTimeout : Duration;
  targets : list Target;
  mirroringEnabled : bool
}.

(** Modelled from the spec: a Stream Connection Wrapper (missing), named
    by the target it was dialled to and its connection identifier; its
    statistics live in that target's [connections]. *)
Record Wrapper := {
  w_address : gostring;
  w_id : gostring
}.

(** Modelled from the spec: the Composite Connection of the data model
    (missing): one protagonist and the ordered halo set. *)
Record CompositeConnection := {
  protagonist : Wrapper;
  haloSet : list Wrapper
}.

(** Modelled from the spec: the error taxonomy of the dial path
    (missing): DialFailure, either for want of an enabled target or
    aggregating the error of every attempted target. *)
Inductive Fault :=
| DialFailure_no_enabled_targets
| DialFailure (errors : list (gostring * error)).

(** Modelled from the spec: what lies outside the manager (missing): how
    a dial to an address bounded by the dial timeout ends ([None]: it
    connected), what the transport of a connection answers to a write
    and to a read, the identifier a new connection gets, and the time. *)
Record Network := {
  dial_outcome : Duration -> gostring -> option error;
  transport_write : Wrapper -> list byte -> Z * option error;
  transport_read : Wrapper -> Z -> list byte * option error;
  new_id : gostring -> gostring;
  now : Time
}.

(** Modelled from the spec: "reachable within the timeout" (no source). *)
Definition reachable (net : Network) (timeout : Duration) (addr : gostring) : bool :=
  bool_decide (dial_outcome net timeout addr = None).

(** Modelled from the spec: construct(addresses, timeout) of the Target
    Registry (missing): one Target per address, enabled, with no
    connections; a later duplicate of an address is ignored. *)
Fixpoint construct_targets (seen : list gostring) (addresses : list gostring) : list Target :=
  match addresses with
  | [] => []
  | a :: rest =>
      if bool_decide (a ∈ seen) then construct_targets seen rest
      else {| address := a; enabled := true; lastDialAttempt := None;
              connections := ∅ |} :: construct_targets (a :: seen) rest
  end.

(** Modelled from the spec: construct(addresses, timeout) (missing). *)
Definition construct (addresses : list gostring) (timeout : Duration) : Manager :=
  {| dialTimeout := timeout; targets := construct_targets [] addresses;
     mirroringEnabled := false |}.

(** Modelled from the spec: the configuration {mirroringEnabled: bool}
    that [WithProtagonistHalo] (missing) switches on. *)
Definition WithProtagonistHalo (m : Manager) : Manager :=
  {| dialTimeout := dialTimeout m; targets := targets m; mirroringEnabled := true |}.

(** Modelled from the spec: "finds Target by exact address match"
    (missing): [f] is applied to the Target with that address, and the
    result tells whether there is one. *)
Fixpoint update_target (addr : gostring) (f : Target -> Target) (ts : list Target)
    : list Target * bool :=
  match ts with
  | [] => ([], false)
  | t :: ts' =>
      if bool_decide (address t = addr) then (f t :: ts', true)
      else let (ts'', found) := update_target addr f ts' in (t :: ts'', found)
  end.

(** Modelled from the spec: the Manager with its registry replaced (no
    source); timeout and mirroring flag are fixed at construction. *)
Definition with_targets (m : Manager) (ts : list Target) : Manager :=
  {| dialTimeout := dialTimeout m; targets := ts;
     mirroringEnabled := mirroringEnabled m |}.

(** Modelled from the spec: "sets enabled" (no source): the Target with
    its flag replaced and nothing else changed. *)
Definition set_flag (en : bool) (t : Target) : Target :=
  {| address := address t; enabled := en; lastDialAttempt := lastDialAttempt t;
     connections := connections t |}.

(** Modelled from the spec: setEnabled(address, enabled) -> bool of the
    Target Registry (missing): sets [enabled] of the Target with that
    address and returns whether the address was found. *)
Definition setEnabled (m : Manager) (addr : gostring) (en : bool) : Manager * bool :=
  let (ts, found) := update_target addr (set_flag en) (targets m) in
  (with_targets m ts, found).

(** Modelled from the spec: snapshotEnabledOrder() of the Target
    Registry (missing): the targets in configured order, filtered to the
    enabled ones. *)
Definition snapshotEnabledOrder (m : Manager) : list Target :=
  filter (fun t => enabled t = true) (targets m).

(** Modelled from the spec: register(address, stats) of the Target
    Registry (missing): inserts the statistics under the Target with
    that address; nothing happens when there is none. *)
Definition register (m : Manager) (addr : gostring) (stats : ConnectionStats) : Manager :=
  with_targets m
    (update_target addr
       (fun t => {| address := address t; enabled := enabled t;
                    lastDialAttempt := lastDialAttempt t;
                    connections := <[id stats := stats]> (connections t) |})
       (targets m)).1.

(** Modelled from the spec: "lastDialAttempt: timestamp of the most
    recent dial attempt for this target (set even on failure)". *)
Definition mark_dialled (m : Manager) (addr : gostring) (t0 : Time) : Manager :=
  with_targets m
    (update_target addr
       (fun t => {| address := address t; enabled := enabled t;
                    lastDialAttempt := Some t0;
                    connections := connections t |})
       (targets m)).1.

(** Modelled from the spec: the statistics of one connection are updated
    in place in its target's [connections] (missing). *)
Definition update_stats (m : Manager) (c : Wrapper)
    (f : ConnectionStats -> ConnectionStats) : Manager :=
  with_targets m
    (update_target (w_address c)
       (fun t => {| address := address t; enabled := enabled t;
                    lastDialAttempt := lastDialAttempt t;
                    connections := alter f (w_id c) (connections t) |})
       (targets m)).1.

(** Modelled from the spec: the ConnectionStats of a connection just
    dialled (no source): zero counters, no I/O yet, not closed. *)
Definition new_stats (i : gostring) : ConnectionStats :=
  {| id := i; bytesRead := 0; bytesWritten := 0; lastReadAt := None;
     lastWriteAt := None; closed := false |}.

(** Modelled from the spec: "wraps each success in a Stream Connection
    Wrapper" (no source), under the identifier assigned at dial success. *)
Definition wrapper_of (net : Network) (addr : gostring) : Wrapper :=
  {| w_address := addr; w_id := new_id net addr |}.

(** Modelled from the spec: steps 3a and 3d of the Dial Coordinator
    (missing): the addresses, in the given order, whose dial succeeded,
    and the error of each one whose dial failed. *)
Fixpoint attempt_all (net : Network) (timeout : Duration) (addrs : list gostring)
    : list gostring * list (gostring * error) :=
  match addrs with
  | [] => ([], [])
  | a :: rest =>
      let (succeeded, failed) := attempt_all net timeout rest in
      match dial_outcome net timeout a with
      | None => (a :: succeeded, failed)
      | Some e => (succeeded, (a, e) :: failed)
      end
  end.

(** Modelled from the spec: step 3e, "Register each successful
    connection's stats under its Target in the registry". *)
Definition register_all (net : Network) (m : Manager) (addrs : list gostring) : Manager :=
  foldl (fun m a => register m a (new_stats (new_id net a))) m addrs.

(** Modelled from the spec: every attempted target gets its
    lastDialAttempt set (no source). *)
Definition mark_all (net : Network) (m : Manager) (addrs : list gostring) : Manager :=
  foldl (fun m a => mark_dialled m a (now net)) m addrs.

(** Modelled from the spec: dial(context, mirroringEnabled) of the Dial
    Coordinator (missing), steps 1 to 3e of its algorithm; the context
    is one that is not cancelled while the dial runs. *)
Definition dial (net : Network) (m : Manager) (mirroring : bool)
    : Manager * (CompositeConnection + Fault) :=
  match address <$> snapshotEnabledOrder m with
  | [] => (m, inr DialFailure_no_enabled_targets)
  | first :: others =>
      if mirroring then
        let m1 := mark_all net m (first :: others) in
        match attempt_all net (dialTimeout m) (first :: others) with
        | ([], failed) => (m1, inr (DialFailure failed))
        | (p :: halos, _) =>
            (register_all net m1 (p :: halos),
             inl {| protagonist := wrapper_of net p;
                    haloSet := wrapper_of net <$> halos |})
        end
      else
        let m1 := mark_dialled m first (now net) in
        match dial_outcome net (dialTimeout m) first with
        | Some e => (m1, inr (DialFailure [(first, e)]))
        | None =>
            (register_all net m1 [first],
             inl {| protagonist := wrapper_of net first; haloSet := [] |})
        end
  end.

(** Modelled from the spec: a successful write of [n] bytes advances
    bytesWritten and sets lastWriteAt (no source). *)
Definition wrote (n : Z) (t0 : Time) (s : ConnectionStats) : ConnectionStats :=
  {| id := id s; bytesRead := bytesRead s; bytesWritten := bytesWritten s + n;
     lastReadAt := lastReadAt s; lastWriteAt := Some t0; closed := closed s |}.

(** Modelled from the spec: a successful read of [n] bytes advances
    bytesRead and sets lastReadAt (no source). *)
Definition did_read (n : Z) (t0 : Time) (s : ConnectionStats) : ConnectionStats :=
  {| id := id s; bytesRead := bytesRead s + n; bytesWritten := bytesWritten s;
     lastReadAt := Some t0; lastWriteAt := lastWriteAt s; closed := closed s |}.

(** Modelled from the spec: "marks that halo member closed" (no
    source). *)
Definition mark_closed (s : ConnectionStats) : ConnectionStats :=
  {| id := id s; bytesRead := bytesRead s; bytesWritten := bytesWritten s;
     lastReadAt := lastReadAt s; lastWriteAt := lastWriteAt s; closed := true |}.

(** Modelled from the spec: whether a halo write "fails or is short"
    (missing): an error, or fewer bytes than the buffer holds. *)
Definition halo_write_failed (buffer : list byte) (r : Z * option error) : bool :=
  match r with
  | (_, Some _) => true
  | (n, None) => n <? Z.of_nat (length buffer)
  end.

(** Modelled from the spec: the halo part of write(buffer) (missing):
    each live halo member, in order, gets the buffer; one that fails is
    marked closed and leaves the set, one that succeeds has its
    statistics advanced. *)
Fixpoint mirror (net : Network) (m : Manager) (halos : list Wrapper) (buffer : list byte)
    : Manager * list Wrapper :=
  match halos with
  | [] => (m, [])
  | h :: rest =>
      let r := transport_write net h buffer in
      if halo_write_failed buffer r then
        mirror net (update_stats m h mark_closed) rest buffer
      else
        let (m', kept) := mirror net (update_stats m h (wrote r.1 (now net))) rest buffer in
        (m', h :: kept)
  end.

(** Modelled from the spec: write(buffer) -> (n, error) of the Composite
    Connection (missing): the protagonist first; its failure is returned
    at once; on its success the halo members are written to, and the
    protagonist's pair is returned. *)
Definition write (net : Network) (m : Manager) (c : CompositeConnection)
    (buffer : list byte) : Manager * CompositeConnection * (Z * option error) :=
  match transport_write net (protagonist c) buffer with
  | (n, Some e) => (m, c, (n, Some e))
  | (n, None) =>
      let m1 := update_stats m (protagonist c) (wrote n (now net)) in
      let (m2, kept) := mirror net m1 (haloSet c) buffer in
      (m2, {| protagonist := protagonist c; haloSet := kept |}, (n, None))
  end.

(** Modelled from the spec: read(buffer) -> (n, error) of the Composite
    Connection (missing): the protagonist only; a success advances its
    [bytesRead]. *)
Definition read (net : Network) (m : Manager) (c : CompositeConnection)
    (size : Z) : Manager * (list byte * option error) :=
  match transport_read net (protagonist c) size with
  | (data, Some e) => (m, (data, Some e))
  | (data, None) =>
      (update_stats m (protagonist c) (did_read (Z.of_nat (length data)) (now net)),
       (data, None))
  end.

#[global] Instance Wrapper_eq_dec : EqDecision Wrapper.
Proof. solve_decision. Defined.

(** Modelled from the spec: the Target "matching address" (no source):
    the first one in configured order with that address. *)
Fixpoint lookup_target (addr : gostring) (ts : list Target) : option Target :=
  match ts with
  | [] => None
  | t :: ts' => if bool_decide (address t = addr) then Some t else lookup_target addr ts'
  end.

(** Modelled from the spec: the ConnectionStats of a wrapper, as the
    registry holds them (no source). *)
Definition stats_of (m : Manager) (c : Wrapper) : option ConnectionStats :=
  match lookup_target (w_address c) (targets m) with
  | Some t => connections t !! w_id c
  | None => None
  end.

(** The statistics the registry holds for a wrapper, if any, are marked
    closed. *)
Definition closed_in (m : Manager) (h : Wrapper) : Prop :=
  forall s, stats_of m h = Some s -> closed s = true.

(** Modelled from the spec: a sequence of enable/disable calls on the
    registry (no source), each a [setEnabled]. *)
Definition apply_toggles (m : Manager) (toggles : list (gostring * bool)) : Manager :=
  foldl (fun m toggle => (setEnabled m toggle.1 toggle.2).1) m toggles.

(** The targets of the shell's defaults, and a network in which only
    the second answers and every write goes through in full. *)
Definition addr_A : gostring := lit "127.0.0.1:3301".
Definition addr_B : gostring := lit "127.0.0.1:3302".

Definition example_manager : Manager :=
  WithProtagonistHalo (construct [addr_A; addr_B] (3 * Second)).

Definition example_net : Network :=
  {| dial_outcome := fun _ a =>
       if bool_decide (a = addr_B) then None else Some (lit "connection refused");
     transport_write := fun _ buffer => (Z.of_nat (length buffer), None);
     transport_read := fun _ _ => ([], None);
     new_id := fun a => lit "id-" ++ a;
     now := 1 |}.

(** A network in which both targets answer and the transport of the
    second accepts no byte. *)
Definition example_net_halo_down : Network :=
  {| dial_outcome := fun _ _ => None;
     transport_write := fun c buffer =>
       if bool_decide (w_address c = addr_B) then (0, Some (lit "broken pipe"))
       else (Z.of_nat (length buffer), None);
     transport_read := fun _ _ => ([], None);
     new_id := fun a => lit "id-" ++ a;
     now := 1 |}.

(** The registry and the connection after a dial in that network: the
    first target is the protagonist, the second the only halo member. *)
Definition example_dialled : Manager :=
  (dial example_net_halo_down example_manager true).1.

Definition example_connection : CompositeConnection :=
  {| protagonist := wrapper_of example_net_halo_down addr_A;
     haloSet := [wrapper_of example_net_halo_down addr_B] |}.

End dualconn.

(** ** The conversion rules as a table keyed by kind

    The statement to compare [NullAny.Scan] with: one entry per kind,
    each giving the receiver after the scan of a non-nil value, and the
    error. *)

Module rules.

Section WithLibs.
Context `{CaseTables} `{Libs}.

Definition Rule : Type := db.NullAny -> any -> db.NullAny * option error.

Definition bool_rule : Rule := fun ns value =>
  (db.set_value ns db.ValueTypeBool (VBool (sql_NullBool_Scan value).1),
   (sql_NullBool_Scan value).2).

Definition int64_rule : Rule := fun ns value =>
  (db.set_value ns db.ValueTypeInt64 (VInt KInt64 (sql_NullInt64_Scan value).1),
   (sql_NullInt64_Scan value).2).

Definition float64_rule : Rule := fun ns value =>
  (db.set_value ns db.ValueTypeFloat64 (VFloat KFloat64 (sql_NullFloat64_Scan value).1),
   (sql_NullFloat64_Scan value).2).

Definition string_rule : Rule := fun ns value =>
  (db.set_value ns db.ValueTypeString (VString (sql_NullString_Scan value).1),
   (sql_NullString_Scan value).2).

Definition other_rule : Rule := fun ns value =>
  (db.scan_by_dynamic_type ns value, None).

Definition bytes_rule : Rule := fun ns value =>
  match value with
  | VBytes _ => (db.set_value ns db.ValueTypeBytes value, None)
  | _ => other_rule ns value
  end.

Definition table : list (Z * Rule) :=
  [ (db.ValueTypeBool, bool_rule);
    (db.ValueTypeInt64, int64_rule);
    (db.ValueTypeFloat64, float64_rule);
    (db.ValueTypeString, string_rule);
    (db.ValueTypeBytes, bytes_rule);
    (db.ValueTypeOther, other_rule) ].

Fixpoint lookup_rule (entries : list (Z * Rule)) (kind : Z) : option Rule :=
  match entries with
  | [] => None
  | (k, rule) :: entries' => if kind =? k then Some rule else lookup_rule entries' kind
  end.

(** A scan through the table: nil leaves the receiver invalid; any other
    value marks it valid and goes through the rule of the receiver's
    kind. *)
Definition scan_with_table (ns : db.NullAny) (value : any) : db.NullAny * option error :=
  match value with
  | Nil =>
      ({| db.ns_Value := db.ns_Value ns; db.ns_ValueType := db.ns_ValueType ns;
          db.ns_Valid := false |}, None)
  | _ =>
      let ns' := {| db.ns_Value := db.ns_Value ns; db.ns_ValueType := db.ns_ValueType ns;
                    db.ns_Valid := true |} in
      match lookup_rule table (db.ns_ValueType ns) with
      | Some rule => rule ns' value
      | None => other_rule ns' value
      end
  end.

End WithLibs.

End rules.

(** ** A scripted world, for examples

    A database that answers each call from a script, and a clock that
    ticks at every reading. *)

Module scripted.

Definition tables : CaseTables := {| upper_table := id; lower_table := id |}.

Definition libs : Libs := {|
  sql_NullBool_Scan := fun v =>
    match v with VBool b => (b, None) | _ => (false, Some (lit "not a bool")) end;
  sql_NullInt64_Scan := fun v =>
    match v with VInt _ n => (n, None) | _ => (0, Some (lit "not an integer")) end;
  sql_NullFloat64_Scan := fun v =>
    match v with VFloat _ f => (f, None) | _ => (0, Some (lit "not a float")) end;
  sql_NullString_Scan := fun v =>
    match v with VString s => (s, None) | _ => ([], Some (lit "not a string")) end;
  sql_scan_arity_error := fun _ _ => lit "sql: wrong number of destinations";
  sql_scan_column_error := fun _ e => lit "sql: Scan error: " ++ e;
  fmt_Sprintf_v := fun v => match v with VString s => s | _ => lit "?" end;
  string_of_bytes := fun b => b;
  reflect_CanConvert := fun v t =>
    match v, t with VTime _, TimeType => true | _, _ => false end;
  reflect_Convert_Time := fun v => match v with VTime t => t | _ => 0 end;
  reflect_Convert_String := fun _ => [];
  time_Clock := fun _ => (0, 0, 0);
  time_Nanosecond := fun _ => 0;
  time_Format := fun _ layout => layout;
  time_Sub := fun a b => a - b;
  Duration_String := fun d => if d =? 0 then lit "0s" else lit "1ns";
  json_Marshal_row := fun _ => Ok (JObject [])
|}.

Record World := {
  clock : Time;
  queries : list (Result sql.Rows);
  execs : list (Result sql.Result_)
}.

Definition queryer : Queryer World := {|
  QueryContext := fun _ _ _ w =>
    match queries w with
    | [] => (w, Err (lit "connection refused"))
    | r :: rest => ({| clock := clock w; queries := rest; execs := execs w |}, r)
    end
|}.

Definition execer : ExecAware World := {|
  ExecContext := fun _ _ _ w =>
    match execs w with
    | [] => (w, Err (lit "connection refused"))
    | r :: rest => ({| clock := clock w; queries := queries w; execs := rest |}, r)
    end
|}.

Definition database : DB World := {| DB_ExecAware := execer; DB_Queryer := queryer |}.

Definition ticking : Clock World := {|
  time_Now := fun w =>
    ({| clock := clock w + 1; queries := queries w; execs := execs w |}, clock w);
  time_Sleep := fun d w =>
    {| clock := clock w + d; queries := queries w; execs := execs w |}
|}.

(** A cursor over a table with columns [k] and [v], both VARCHAR. *)
Definition kv_rows (data : list (list any)) : sql.Rows :=
  {| sql.columns := Ok [lit "k"; lit "v"];
     sql.columnTypes := Ok [ {| sql.DatabaseTypeName := lit "VARCHAR" |};
                             {| sql.DatabaseTypeName := lit "VARCHAR" |} ];
     sql.pending := data; sql.eof_err := None; sql.lastcols := []; sql.lasterr := None |}.

Definition one_row : list (list any) := [[VString (lit "k1"); VString (lit "v1")]].

Definition three_rows : list (list any) :=
  [ [VString (lit "k1"); VString (lit "v1")];
    [VString (lit "k2"); VString (lit "v2")];
    [VString (lit "k3"); VString (lit "v3")] ].

(** A row whose first value is not a string, in a VARCHAR column. *)
Definition bad_row : list any := [VInt KInt64 7; VString (lit "v")].

(** The scanner [NewRowScanner] builds over that cursor. *)
Definition kv_scanner (data : list (list any)) : db.RowScanner :=
  {| db.rs_Rows := kv_rows data;
     db.Types := [db.ValueTypeString; db.ValueTypeString];
     db.LowerColumns := []; db.Columns := [lit "k"; lit "v"] |}.

(** The probe succeeds, then the query returns one row. *)
Definition world_ok : World :=
  {| clock := 0; queries := [Ok (kv_rows []); Ok (kv_rows one_row)]; execs := [] |}.

(** The probe succeeds, then an insert reports id 7 and one row
    affected. *)
Definition world_exec : World :=
  {| clock := 0; queries := [Ok (kv_rows [])];
     execs := [Ok {| sql.LastInsertId := (7, None); sql.RowsAffected := (1, None) |}] |}.

(** No database answers at all. *)
Definition world_down : World := {| clock := 0; queries := []; execs := [] |}.

(** The facade over the scripted world. *)
Definition RunSQL : Context -> gostring -> World -> option (World * db.QueryResult) :=
  @db.RunSQL tables libs World database ticking.

Definition Query : Context -> gostring -> list any -> db.JsonRowsScanner -> World
    -> option (World * db.QueryResult) :=
  @db.Query tables libs World database ticking.

Definition Exec : Context -> gostring -> list any -> db.JsonRowsScanner -> World
    -> option (World * db.QueryResult) :=
  @db.Exec World database ticking db.JsonRowsScanner
    (@db.JsonRowsScanner_RowsScanner libs World ticking).

Definition request (q : gostring) : http.Request :=
  {| http.URL_Query := {[ lit "q" := [q] ]}; http.req_Context := Background |}.

Definition handle_query : http.ResponseWriter -> http.Request -> World
    -> option (World * http.ResponseWriter * list error) :=
  @main.handle_query tables libs World database ticking.


(** The handler of [/enable] over the registry of the written contract,
    [setEnabled] standing for the manager's [Enable]. *)
Definition handle_enable : http.ResponseWriter -> http.Request -> dualconn.Manager
    -> dualconn.Manager * http.ResponseWriter :=
  main.handle_enable dualconn.Manager dualconn.setEnabled.

End scripted.

(** ** Views of the row loop

    Names for what the statements about [JsonRowsScanner.Scan] speak of. *)

Module scanning.

(** The scanner whose cursor [Next] has moved onto the row [r], with
    [rest] still to come: the scanner one round of the loop works on. *)
Definition on_row (scan : db.RowScanner) (r : list any) (rest : list (list any))
    : db.RowScanner :=
  {| db.rs_Rows := sql.advance (db.rs_Rows scan) r rest; db.Types := db.Types scan;
     db.LowerColumns := db.LowerColumns scan; db.Columns := db.Columns scan |}.

(** The delivered row [r] scans without error and, keyed by [header],
    gives the map [m]. *)
Definition gives `{Libs} (scan : db.RowScanner) (header : list gostring)
    (r : list any) (m : gmap gostring any) : Prop :=
  exists cells : list any,
    db.RowScanner_Scan (on_row scan r []) = Ok cells /\
    db.fill_row header 0 cells ∅ = Some m.

(** The delivered row [r] fails to scan, with error [e]. *)
Definition fails `{Libs} (scan : db.RowScanner) (r : list any) (e : error) : Prop :=
  db.RowScanner_Scan (on_row scan r []) = Err e.

(** What [Quote] puts between the outer quotes: the string with a
    backslash before each quote. *)
Definition escaped (s : gostring) : gostring :=
  s ≫= (fun r => if r =? db.quote then [db.escape; r] else [r]).

(** A [NullAny] as [RowScanner.Scan] creates it for a column of kind [t]. *)
Definition fresh (t : Z) : db.NullAny :=
  {| db.ns_Value := Nil; db.ns_ValueType := t; db.ns_Valid := false |}.

(** The cell a column of kind [t] shows for the driver value [value]
    when its scan succeeds: [getColValue] of the scanned [NullAny]. *)
Definition cell `{Libs} (t : Z) (value : any) : any :=
  db.getColValue (db.NullAny_Scan (fresh t) value).1.

End scanning.

(** * Properties *)

(** ** Go integers *)

Lemma wrap64_small (z : Z) : minInt <= z <= maxInt -> wrap64 z = z.
Proof.
  unfold wrap64, minInt, maxInt. intros Hz.
  rewrite Z.mod_small by lia. lia.
Qed.

Lemma int_add_small (a b : Z) : minInt <= a + b <= maxInt -> int_add a b = a + b.
Proof. apply wrap64_small. Qed.

(** ** [strings.Fields] *)

Lemma fields_from_nil (cur s : gostring) :
  strings.fields_from cur s = [] <->
  cur = [] /\ Forall (fun r => unicode.IsSpace r = true) s.
Proof.
  revert cur. induction s as [|r s IH]; intros cur; simpl.
  - destruct cur; split; [done|done|done|].
    intros [Hcur _]; discriminate Hcur.
  - destruct (unicode.IsSpace r) eqn:Hr.
    + destruct cur as [|c cur].
      * rewrite IH. split.
        -- intros [_ Hs]. split; [done|]. by constructor.
        -- intros [_ Hs]. split; [done|]. by inversion Hs.
      * split; [done|]. intros [Hcur _]; discriminate Hcur.
    + rewrite IH. split.
      * intros [Hcur _]; discriminate Hcur.
      * intros [_ Hs]. inversion Hs; congruence.
Qed.

Lemma Fields_nil (s : gostring) :
  strings.Fields s = [] <-> Forall (fun r => unicode.IsSpace r = true) s.
Proof. unfold strings.Fields. rewrite fields_from_nil. tauto. Qed.

(** ** [AddRow] and the scan loop *)

Lemma fill_row_fits (header : list gostring) (i : nat) (columns : list any)
    (row : gmap gostring any) :
  (i + length header <= length columns)%nat ->
  is_Some (db.fill_row header i columns row).
Proof.
  revert i row. induction header as [|h header IH]; intros i row Hlen; simpl in *.
  - by eexists.
  - destruct (lookup_lt_is_Some_2 columns i) as [c Hc]; [lia|].
    rewrite Hc. apply IH. lia.
Qed.

Lemma AddRow_Header (j j' : db.JsonRowsScanner) (i : Z) (columns : list any) (b : bool) :
  db.AddRow j i columns = Some (j', b) ->
  db.Header j' = db.Header j /\ db.Limit j' = db.Limit j /\ db.Offset j' = db.Offset j.
Proof.
  unfold db.AddRow. intros Hadd.
  destruct (_ && _); [by simplify_eq|].
  destruct (_ <? _); [by simplify_eq|].
  destruct (db.fill_row _ _ _ _); by simplify_eq.
Qed.

Lemma AddRow_fits (j : db.JsonRowsScanner) (i : Z) (columns : list any) :
  (length (db.Header j) <= length columns)%nat ->
  is_Some (db.AddRow j i columns).
Proof.
  intros Hlen. unfold db.AddRow.
  destruct (_ && _); [by eexists|].
  destruct (_ <? _); [by eexists|].
  destruct (fill_row_fits (db.Header j) 0 columns ∅) as [row ->]; [lia|].
  by eexists.
Qed.

Section ScanFacts.
Context `{CaseTables} `{Libs}.

Lemma scan_columns_length (i : nat) (dest : list db.NullAny) (src : list any) :
  length (db.scan_columns i dest src).1 = length dest.
Proof.
  revert i src. induction dest as [|d dest IH]; intros i src; [done|].
  destruct src as [|sv src]; [done|]. simpl.
  destruct (db.NullAny_Scan d sv) as [d' [err|]]; [done|].
  specialize (IH (S i) src).
  destruct (db.scan_columns (S i) dest src) as [rest err]. simpl in *. by rewrite IH.
Qed.

Lemma RowScanner_Scan_length (s : db.RowScanner) (row : list any) :
  db.RowScanner_Scan s = Ok row ->
  length row = length (sql.lastcols (db.rs_Rows s)).
Proof.
  unfold db.RowScanner_Scan, db.Rows_Scan. intros Hscan.
  case_bool_decide as Hlen.
  - pose proof (scan_columns_length 0
      ((fun t => {| db.ns_Value := Nil; db.ns_ValueType := t; db.ns_Valid := false |})
         <$> db.Types s) (sql.lastcols (db.rs_Rows s))) as Hl.
    destruct (db.scan_columns _ _ _) as [values' [err|]]; [done|].
    simplify_eq. simpl in Hl. by rewrite length_fmap, Hl.
  - done.
Qed.

Lemma ncols_advance (r : sql.Rows) (row : list any) (rest : list (list any)) :
  sql.ncols (sql.advance r row rest) = sql.ncols r.
Proof. done. Qed.

Lemma lastcols_advance (r : sql.Rows) (row : list any) (rest : list (list any)) :
  length (sql.lastcols (sql.advance r row rest)) = sql.ncols r.
Proof. simpl. by rewrite length_resize. Qed.

(** The loop of [JsonRowsScanner.Scan] never panics when the header is
    the column list of the cursor. *)
Lemma scan_loop_returns (pending : list (list any)) (scan : db.RowScanner)
    (j : db.JsonRowsScanner) (rowNum : Z) :
  length (db.Header j) = sql.ncols (db.rs_Rows scan) ->
  is_Some (db.scan_loop pending scan j rowNum).
Proof.
  revert scan j rowNum.
  induction pending as [|r rest IH]; intros scan j rowNum Hhdr; simpl.
  - by eexists.
  - destruct (db.RowScanner_Scan _) as [row|err] eqn:Hscan; [|by eexists].
    apply RowScanner_Scan_length in Hscan. simpl in Hscan.
    rewrite length_resize in Hscan.
    destruct (AddRow_fits j rowNum row) as [[j' b] Hadd]; [lia|].
    rewrite Hadd. destruct (AddRow_Header _ _ _ _ _ Hadd) as (Hh & _ & _).
    destruct b; [|by eexists].
    apply IH. simpl. by rewrite Hh.
Qed.

Lemma JsonRowsScanner_Scan_returns (j : db.JsonRowsScanner) (rows : sql.Rows) :
  is_Some (db.JsonRowsScanner_Scan j rows).
Proof.
  unfold db.JsonRowsScanner_Scan, db.NewRowScanner, sql.Columns, sql.ColumnTypes.
  destruct (sql.columns rows) as [cs|err] eqn:Hcs; [|by eexists].
  destruct (sql.columnTypes rows) as [cts|err]; [|by eexists].
  apply scan_loop_returns. simpl. unfold sql.ncols. by rewrite Hcs.
Qed.

(** With no offset, the loop leaves at most [Limit] rows in the scanner. *)
Lemma scan_loop_limit (pending : list (list any)) (scan : db.RowScanner)
    (j j' : db.JsonRowsScanner) (rowNum : Z) (rows' : sql.Rows) (err : option error) :
  db.Offset j = 0 -> 0 <= db.Limit j < maxInt ->
  0 <= rowNum <= db.Limit j ->
  Z.of_nat (length (db.j_Rows j)) <= rowNum ->
  db.scan_loop pending scan j rowNum = Some (j', rows', err) ->
  Z.of_nat (length (db.j_Rows j')) <= db.Limit j.
Proof.
  revert scan j rowNum.
  induction pending as [|r rest IH]; intros scan j rowNum Hoff Hlim Hnum Hlen; simpl.
  - intros [= <- _ _]. lia.
  - destruct (db.RowScanner_Scan _) as [row|e]; [|intros [= <- _ _]; lia].
    destruct (db.AddRow j rowNum row) as [[j1 b]|] eqn:Hadd; [|done].
    pose proof (AddRow_Header _ _ _ _ _ Hadd) as (Hh & Hl & Ho).
    assert (Z.of_nat (length (db.j_Rows j1)) <= db.Limit j /\
            (b = true -> rowNum + 1 <= db.Limit j /\
                         Z.of_nat (length (db.j_Rows j1)) <= rowNum + 1)) as [Hj1 Hb].
    { unfold db.AddRow in Hadd. rewrite Hoff in Hadd. simpl in Hadd.
      rewrite !int_add_small in Hadd by (unfold minInt, maxInt in *; lia).
      destruct (Z.ltb_spec (db.Limit j + 0) (rowNum + 1)).
      - simplify_eq. split; [lia|done].
      - destruct (db.fill_row _ _ _ _); [|done]. simplify_eq. simpl.
        rewrite length_app. simpl. split; [lia|]. intros _. lia. }
    destruct b.
    + intros Hloop. destruct (Hb eq_refl) as [Hn Hl1].
      rewrite <- Hl. eapply (IH _ j1 (int_add rowNum 1)); [congruence|lia|..|exact Hloop].
      * rewrite int_add_small by (unfold minInt, maxInt in *; lia). lia.
      * rewrite int_add_small by (unfold minInt, maxInt in *; lia). lia.
    + intros [= <- _ _]. lia.
Qed.

(** The loop in terms of [RowScanner.Next]: as long as [pending] is what
    the cursor has yet to deliver, one round of [scan_loop] is one round
    of [for ; scan.Next(); rowNum++]. *)
Lemma scan_loop_unfold (pending : list (list any)) (scan : db.RowScanner)
    (j : db.JsonRowsScanner) (rowNum : Z) :
  sql.pending (db.rs_Rows scan) = pending ->
  db.scan_loop pending scan j rowNum =
    match db.RowScanner_Next scan with
    | (scan', false) => Some (j, db.rs_Rows scan', sql.Err_ (db.rs_Rows scan'))
    | (scan', true) =>
        match db.RowScanner_Scan scan' with
        | Err err => Some (j, db.rs_Rows scan', Some err)
        | Ok row =>
            match db.AddRow j rowNum row with
            | None => None
            | Some (j', false) =>
                Some (j', db.rs_Rows scan', sql.Err_ (db.rs_Rows scan'))
            | Some (j', true) =>
                db.scan_loop (sql.pending (db.rs_Rows scan')) scan' j' (int_add rowNum 1)
            end
        end
    end.
Proof.
  intros <-. unfold db.RowScanner_Next, sql.Next.
  destruct (sql.pending (db.rs_Rows scan)) as [|r rest]; reflexivity.
Qed.

End ScanFacts.

(** ** [Query], [Exec] and [RunSQL] *)

Section FacadeFacts.
Context `{CaseTables} `{Libs} {W : Type} `{DB W} `{Clock W}.

Lemma PingDB_world (ctx : Context) (timeout : Duration) (w : W) :
  db.PingDB ctx timeout w =
  ((db.ping_loop 3 (WithTimeout ctx timeout) w).1,
   (db.ping_loop 3 (WithTimeout ctx timeout) w).2, None).
Proof. unfold db.PingDB. by destruct (db.ping_loop _ _ _). Qed.

Lemma Query_returns (ctx : Context) (q : gostring) (args : list any)
    (scanner : db.JsonRowsScanner) (w : W) :
  is_Some (db.Query ctx q args scanner w).
Proof.
  unfold db.Query. rewrite PingDB_world.
  destruct (db.StartExecute _ _) as [w2 scanner1].
  destruct (QueryContext ctx q args w2) as [w3 [rows|err]]; [|by eexists].
  destruct (JsonRowsScanner_Scan_returns scanner1 rows) as [[[j2 rows'] [e|]] ->];
    by eexists.
Qed.

Lemma Exec_returns (ctx : Context) (q : gostring) (args : list any)
    (scanner : db.JsonRowsScanner) (w : W) :
  is_Some (db.Exec ctx q args scanner w).
Proof.
  unfold db.Exec. rewrite PingDB_world.
  destruct (db.rs_StartExecute _ _) as [w2 sc1].
  destruct (ExecContext ctx q args w2) as [w3 [result|err]]; [|by eexists].
  destruct (sql.LastInsertId result) as [id err1].
  destruct (sql.RowsAffected result) as [affected err2].
  destruct (multierr.Append err1 err2) as [err|].
  - destruct (AddRow_fits
      (db.StartRows sc1 [lit "lastInsertId"; lit "rowsAffected"; lit "error"]) 0
      [VInt KInt64 id; VInt KInt64 affected; VError err]) as [[sc2 b] Hadd]; [simpl; lia|].
    simpl. rewrite Hadd. by eexists.
  - destruct (AddRow_fits
      (db.StartRows sc1 [lit "lastInsertId"; lit "rowsAffected"]) 0
      [VInt KInt64 id; VInt KInt64 affected]) as [[sc2 b] Hadd]; [simpl; lia|].
    simpl. rewrite Hadd. by eexists.
Qed.

(** [RunSQL] hands a query with at least one field to [Query] or to
    [Exec], with a scanner of offset 0 and limit 30. *)
Lemma RunSQL_dispatch (ctx : Context) (query : gostring) (w : W) :
  strings.Fields query <> [] ->
  db.RunSQL ctx query w = db.Query ctx query [] (db.NewJsonRowsScanner 0 30) w \/
  db.RunSQL ctx query w = db.Exec ctx query [] (db.NewJsonRowsScanner 0 30) w.
Proof.
  intros Hf. unfold db.RunSQL.
  destruct (strings.Fields query) as [|first rest]; [done|].
  destruct (_ || _); [by left|].
  destruct (bool_decide _); [|by right].
  destruct (strings.Contains _ _); [by left|by right].
Qed.

Lemma RunSQL_panics_iff (ctx : Context) (query : gostring) (w : W) :
  db.RunSQL ctx query w = None <->
  Forall (fun r => unicode.IsSpace r = true) query.
Proof.
  rewrite <- Fields_nil. split.
  - intros Hrun. destruct (strings.Fields query) as [|first rest] eqn:Hf; [done|].
    exfalso.
    destruct (RunSQL_dispatch ctx query w) as [Heq|Heq]; [by rewrite Hf|..];
      rewrite Heq in Hrun.
    + by destruct (Query_returns ctx query [] (db.NewJsonRowsScanner 0 30) w) as [? ?];
        simplify_eq.
    + by destruct (Exec_returns ctx query [] (db.NewJsonRowsScanner 0 30) w) as [? ?];
        simplify_eq.
  - intros Hf. unfold db.RunSQL. by rewrite Hf.
Qed.

(** The events of the probe loop with [n] iterations left: some failed
    probes, each followed by a sleep, then one successful probe unless all
    [n] failed. *)
Lemma ping_loop_events (n : nat) (tctx : Context) (w : W) :
  exists failures : nat,
    (failures <= n)%nat /\
    (db.ping_loop n tctx w).2 =
      concat (replicate failures
                [db.Probe (lit "select 1") false; db.Slept (100 * Millisecond)])
      ++ (if (failures <? n)%nat then [db.Probe (lit "select 1") true] else []).
Proof.
  revert w. induction n as [|n IH]; intros w.
  - exists 0%nat. split; [lia|done].
  - cbn [db.ping_loop].
    destruct (QueryContext tctx (lit "select 1") [] w) as [w1 [rows|e]].
    + exists 0%nat. split; [lia|done].
    + destruct (IH (time_Sleep (100 * Millisecond) w1)) as (k & Hk & Hev).
      destruct (db.ping_loop n tctx _) as [w3 events]. cbn [fst snd] in *.
      exists (S k). split; [lia|]. rewrite Hev. cbn [replicate concat app].
      replace (S k <? S n)%nat with (k <? n)%nat; [done|].
      destruct (Nat.ltb_spec k n), (Nat.ltb_spec (S k) (S n)); (done || lia).
Qed.

End FacadeFacts.

(** ** What [Query] and [Exec] return *)

Section ResultFacts.
Context `{CaseTables} `{Libs} {W : Type} `{DB W} `{Clock W}.

Lemma Query_operation_fails ctx q args scanner (w w3 : W) (e : error) :
  QueryContext ctx q args (db.sent ctx w) = (w3, Err e) ->
  db.Query ctx q args scanner w = Some (w3, {| db.Error := e; db.Cost := []; db.Rows := [] |}).
Proof.
  unfold db.sent, db.pinged, db.Query, db.StartExecute.
  destruct (db.PingDB ctx (3 * Second) w) as [[w1 events] perr]. simpl.
  destruct (time_Now w1) as [w2 t0]. simpl. by intros ->.
Qed.

Lemma Query_scan_fails ctx q args scanner (w w3 : W) rows j2 rows' (e : error) :
  QueryContext ctx q args (db.sent ctx w) = (w3, Ok rows) ->
  db.JsonRowsScanner_Scan (db.StartExecute scanner (db.pinged ctx w)).2 rows
    = Some (j2, rows', Some e) ->
  db.Query ctx q args scanner w = Some (w3, {| db.Error := e; db.Cost := []; db.Rows := [] |}).
Proof.
  unfold db.sent, db.pinged, db.Query, db.StartExecute.
  destruct (db.PingDB ctx (3 * Second) w) as [[w1 events] perr]. simpl.
  destruct (time_Now w1) as [w2 t0]. simpl. by intros -> ->.
Qed.

Lemma Query_succeeds ctx q args scanner (w w3 : W) rows j2 rows' :
  QueryContext ctx q args (db.sent ctx w) = (w3, Ok rows) ->
  db.JsonRowsScanner_Scan (db.StartExecute scanner (db.pinged ctx w)).2 rows
    = Some (j2, rows', None) ->
  db.Query ctx q args scanner w =
    Some ((time_Now w3).1,
          {| db.Error := [];
             db.Cost := Duration_String (time_Sub (time_Now w3).2 (db.started ctx w));
             db.Rows := db.j_Rows j2 |}).
Proof.
  unfold db.sent, db.started, db.pinged, db.Query, db.StartExecute.
  destruct (db.PingDB ctx (3 * Second) w) as [[w1 events] perr]. simpl.
  destruct (time_Now w1) as [w2 t0] eqn:Hnow. simpl.
  intros -> Hscan. rewrite Hscan. unfold db.Complete.
  destruct (time_Now w3) as [w4 t1]. simpl.
  assert (db.start j2 = t0) as ->; [|done].
  clear -Hscan. revert Hscan.
  unfold db.JsonRowsScanner_Scan.
  destruct (db.NewRowScanner rows) as [scan|]; [|by intros [= <- _]].
  destruct (sql.Columns rows) as [cs|]; [|by intros [= <- _]].
  set (j := db.StartRows _ cs). assert (db.start j = t0) as Hj by done.
  clearbody j. generalize 0 at 1. revert scan j Hj.
  induction (sql.pending rows) as [|r rest IH]; intros scan j Hj n; simpl.
  - by intros [= <- _].
  - destruct (db.RowScanner_Scan _); [|done].
    destruct (db.AddRow j n a) as [[j' b]|] eqn:Hadd; [|done].
    assert (db.start j' = db.start j) as Hs.
    { unfold db.AddRow in Hadd. destruct (_ && _); [by simplify_eq|].
      destruct (_ <? _); [by simplify_eq|].
      destruct (db.fill_row _ _ _ _); by simplify_eq. }
    destruct b.
    + apply IH. congruence.
    + intros [= <- _]. congruence.
Qed.

Lemma Exec_operation_fails ctx q args (scanner : db.JsonRowsScanner) (w w3 : W) (e : error) :
  ExecContext ctx q args (db.sent ctx w) = (w3, Err e) ->
  db.Exec ctx q args scanner w = Some (w3, {| db.Error := e; db.Cost := []; db.Rows := [] |}).
Proof.
  unfold db.sent, db.pinged, db.Exec.
  destruct (db.PingDB ctx (3 * Second) w) as [[w1 events] perr]. simpl.
  unfold db.StartExecute. destruct (time_Now w1) as [w2 t0]. simpl. by intros ->.
Qed.

Lemma Exec_succeeds ctx q args (scanner : db.JsonRowsScanner) (w w3 : W) result :
  ExecContext ctx q args (db.sent ctx w) = (w3, Ok result) ->
  exists rows : list (gmap gostring any),
    (length rows <= S (length (db.j_Rows scanner)))%nat /\
    db.Exec ctx q args scanner w =
      Some ((time_Now w3).1,
            {| db.Error := [];
               db.Cost := Duration_String (time_Sub (time_Now w3).2 (db.started ctx w));
               db.Rows := rows |}).
Proof.
  unfold db.sent, db.started, db.pinged, db.Exec.
  destruct (db.PingDB ctx (3 * Second) w) as [[w1 events] perr]. simpl.
  unfold db.StartExecute. destruct (time_Now w1) as [w2 t0] eqn:Hnow. simpl.
  intros ->.
  destruct (sql.LastInsertId result) as [id err1].
  destruct (sql.RowsAffected result) as [affected err2].
  destruct (multierr.Append err1 err2) as [err|]; unfold db.AddRow; simpl;
    (destruct (_ && _); [|destruct (_ <? _)]); simpl; unfold db.Complete;
    destruct (time_Now w3) as [w4 t1]; simpl;
    (eexists; split; [|reflexivity]); rewrite ?length_app; simpl; lia.
Qed.

(** A [/query] run returns at most 30 rows. *)
Lemma Query_limit ctx q (w w' : W) (qr : db.QueryResult) :
  db.Query ctx q [] (db.NewJsonRowsScanner 0 30) w = Some (w', qr) ->
  (length (db.Rows qr) <= 30)%nat.
Proof.
  destruct (QueryContext ctx q [] (db.sent ctx w)) as [w3 [rows|e]] eqn:Hq.
  - destruct (JsonRowsScanner_Scan_returns
      (db.StartExecute (db.NewJsonRowsScanner 0 30) (db.pinged ctx w)).2 rows)
      as [[[j2 rows'] [e|]] Hscan].
    + rewrite (Query_scan_fails _ _ _ _ _ _ _ _ _ _ Hq Hscan). intros [= _ <-]. simpl. lia.
    + rewrite (Query_succeeds _ _ _ _ _ _ _ _ _ Hq Hscan). intros [= _ <-]. simpl.
      revert Hscan. unfold db.JsonRowsScanner_Scan.
      destruct (db.NewRowScanner rows) as [scan|]; [|done].
      destruct (sql.Columns rows) as [cs|]; [|done].
      intros Hloop. apply scan_loop_limit in Hloop.
      * revert Hloop. unfold db.StartExecute. destruct (time_Now _). simpl. lia.
      * unfold db.StartExecute. by destruct (time_Now _).
      * unfold db.StartExecute. destruct (time_Now _). simpl. unfold maxInt. lia.
      * unfold db.StartExecute. destruct (time_Now _). simpl. lia.
      * unfold db.StartExecute. destruct (time_Now _). simpl. lia.
  - rewrite (Query_operation_fails _ _ _ _ _ _ _ Hq). intros [= _ <-]. simpl. lia.
Qed.

Lemma Exec_limit ctx q (w w' : W) (qr : db.QueryResult) :
  db.Exec ctx q [] (db.NewJsonRowsScanner 0 30) w = Some (w', qr) ->
  (length (db.Rows qr) <= 30)%nat.
Proof.
  destruct (ExecContext ctx q [] (db.sent ctx w)) as [w3 [result|e]] eqn:Hq.
  - destruct (Exec_succeeds _ _ _ (db.NewJsonRowsScanner 0 30) _ _ _ Hq)
      as (rows & Hlen & ->).
    intros [= _ <-]. simpl in *. lia.
  - rewrite (Exec_operation_fails _ _ _ _ _ _ _ Hq). intros [= _ <-]. simpl. lia.
Qed.

End ResultFacts.

(** ** The JSON document of a [QueryResult] *)

Section JsonFacts.
Context `{Libs}.

Lemma marshal_rows_length (rows : list (gmap gostring any)) (docs : list JSON) :
  json.marshal_rows rows = Ok docs -> length docs = length rows.
Proof.
  revert docs. induction rows as [|row rows IH]; intros docs; simpl.
  - by intros [= <-].
  - destruct (json_Marshal_row row); [|done].
    destruct (json.marshal_rows rows) as [docs'|]; [|done].
    intros [= <-]. simpl. by rewrite (IH docs').
Qed.

(** The object has the keys [error], [cost], [rows], in that order, each
    present exactly when its field is not empty. *)
Lemma Marshal_fields (qr : db.QueryResult) (doc : JSON) :
  json.Marshal qr = Ok doc ->
  exists fields : list (gostring * JSON),
    doc = JObject fields /\
    fields.*1 =
      (if bool_decide (db.Error qr = []) then [] else [lit "error"]) ++
      (if bool_decide (db.Cost qr = []) then [] else [lit "cost"]) ++
      (if bool_decide (db.Rows qr = []) then [] else [lit "rows"]) /\
    (forall k v, (k, v) ∈ fields ->
       (k = lit "error" /\ v = JString (db.Error qr)) \/
       (k = lit "cost" /\ v = JString (db.Cost qr)) \/
       (k = lit "rows" /\ exists docs, v = JArray docs /\
                                       length docs = length (db.Rows qr))).
Proof.
  unfold json.Marshal. intros Hm.
  destruct (db.Rows qr) as [|row rows].
  - simplify_eq. eexists. split; [done|].
    destruct (db.Error qr) as [|c e], (db.Cost qr) as [|c' cost];
      (split; [done|]); intros k v Hin;
      repeat (apply elem_of_cons in Hin as [Hin|Hin]; [simplify_eq; eauto 10|]);
      by apply elem_of_nil in Hin.
  - destruct (json.marshal_rows (row :: rows)) as [docs|] eqn:Hdocs; [|done].
    apply marshal_rows_length in Hdocs.
    simplify_eq. eexists. split; [done|].
    destruct (db.Error qr) as [|c e], (db.Cost qr) as [|c' cost];
      (split; [done|]); intros k v Hin;
      repeat (apply elem_of_cons in Hin as [Hin|Hin]; [simplify_eq; eauto 10|]);
      by apply elem_of_nil in Hin.
Qed.

(** A result that carries only an error message is the object with the
    single key [error] (or no key at all, for an empty message). *)
Lemma Marshal_error_only (e : error) :
  json.Marshal {| db.Error := e; db.Cost := []; db.Rows := [] |} =
  Ok (JObject (match e with [] => [] | _ => [(lit "error", JString e)] end)).
Proof. unfold json.Marshal. simpl. by destruct e. Qed.

End JsonFacts.

Lemma AddRow_appends_iff (j : db.JsonRowsScanner) (rowIndex : Z) (columns : list any) :
  0 <= rowIndex < maxInt ->
  0 <= db.Limit j ->
  minInt <= db.Limit j + db.Offset j <= maxInt ->
  (length (db.Header j) <= length columns)%nat ->
  exists (j' : db.JsonRowsScanner) (more : bool) (row : gmap gostring any),
    db.AddRow j rowIndex columns = Some (j', more) /\
    db.fill_row (db.Header j) 0 columns ∅ = Some row /\
    (db.Offset j <= rowIndex /\ rowIndex + 1 <= db.Limit j + db.Offset j ->
     db.j_Rows j' = db.j_Rows j ++ [row]) /\
    (~ (db.Offset j <= rowIndex /\ rowIndex + 1 <= db.Limit j + db.Offset j) ->
     db.j_Rows j' = db.j_Rows j) /\
    (more = false <-> rowIndex + 1 > db.Limit j + db.Offset j).
Proof.
  intros Hi Hlim Hsum Hlen.
  destruct (fill_row_fits (db.Header j) 0 columns ∅) as [row Hrow]; [lia|].
  unfold db.AddRow. rewrite Hrow.
  rewrite !int_add_small by (unfold minInt, maxInt in *; lia).
  destruct (Z.ltb_spec 0 (db.Offset j)) as [Hoff|Hoff];
    destruct (Z.ltb_spec rowIndex (db.Offset j)) as [Hlt|Hge]; simpl;
    destruct (Z.ltb_spec (db.Limit j + db.Offset j) (rowIndex + 1)) as [Hover|Hin];
    try (destruct (Z.leb_spec (db.Limit j) 0));
    try (destruct (Z.leb_spec (rowIndex + 1) (db.Limit j + db.Offset j)));
    simpl; eexists _, _, row; (split; [reflexivity|]); (split; [reflexivity|]);
    simpl; repeat split; intros; try done; try lia.
Qed.

(** ** The claims about the facade and the shell *)

Section FacadeClaims.
Context `{CaseTables} `{Libs} {W : Type} `{DB W} `{Clock W}.

(** C3: the body of every [/query] response that is written is a JSON
    object whose keys are [error], [cost], [rows], each present exactly
    when its field is not empty; when [QueryContext], [ExecContext] or
    the row scan fails, the result carries the error message and neither
    cost nor rows; otherwise the error is empty and the cost is the
    printed time elapsed between [StartExecute] and [Complete]. *)
Theorem query_response_fields :
  (forall (rw rw' : http.ResponseWriter) (r : http.Request) (world world' : W)
          (logs : list error),
     main.handle_query rw r world = Some (world', rw', logs) ->
     exists qr : db.QueryResult,
       db.RunSQL (http.req_Context r) (http.Get (http.URL_Query r) (lit "q")) world
         = Some (world', qr) /\
       ((exists e, json.Marshal qr = Err e /\ rw' = rw /\ logs = [e]) \/
        (exists fields : list (gostring * JSON),
           rw' = http.Write rw (JObject fields) /\ logs = [] /\
           fields.*1 =
             (if bool_decide (db.Error qr = []) then [] else [lit "error"]) ++
             (if bool_decide (db.Cost qr = []) then [] else [lit "cost"]) ++
             (if bool_decide (db.Rows qr = []) then [] else [lit "rows"]) /\
           (forall k v, (k, v) ∈ fields ->
              (k = lit "error" /\ v = JString (db.Error qr)) \/
              (k = lit "cost" /\ v = JString (db.Cost qr)) \/
              (k = lit "rows" /\ exists docs, v = JArray docs /\
                                              length docs = length (db.Rows qr)))))) /\
  (forall ctx query (w : W),
     strings.Fields query <> [] ->
     db.RunSQL ctx query w = db.Query ctx query [] (db.NewJsonRowsScanner 0 30) w \/
     db.RunSQL ctx query w = db.Exec ctx query [] (db.NewJsonRowsScanner 0 30) w) /\
  (forall ctx q args scanner (w w3 : W) (e : error),
     QueryContext ctx q args (db.sent ctx w) = (w3, Err e) ->
     db.Query ctx q args scanner w
       = Some (w3, {| db.Error := e; db.Cost := []; db.Rows := [] |})) /\
  (forall ctx q args scanner (w w3 : W) rows j2 rows' (e : error),
     QueryContext ctx q args (db.sent ctx w) = (w3, Ok rows) ->
     db.JsonRowsScanner_Scan (db.StartExecute scanner (db.pinged ctx w)).2 rows
       = Some (j2, rows', Some e) ->
     db.Query ctx q args scanner w
       = Some (w3, {| db.Error := e; db.Cost := []; db.Rows := [] |})) /\
  (forall ctx q args scanner (w w3 : W) rows j2 rows',
     QueryContext ctx q args (db.sent ctx w) = (w3, Ok rows) ->
     db.JsonRowsScanner_Scan (db.StartExecute scanner (db.pinged ctx w)).2 rows
       = Some (j2, rows', None) ->
     db.Query ctx q args scanner w =
       Some ((time_Now w3).1,
             {| db.Error := [];
                db.Cost := Duration_String (time_Sub (time_Now w3).2 (db.started ctx w));
                db.Rows := db.j_Rows j2 |})) /\
  (forall ctx q args (scanner : db.JsonRowsScanner) (w w3 : W) (e : error),
     ExecContext ctx q args (db.sent ctx w) = (w3, Err e) ->
     db.Exec ctx q args scanner w
       = Some (w3, {| db.Error := e; db.Cost := []; db.Rows := [] |})) /\
  (forall ctx q args (scanner : db.JsonRowsScanner) (w w3 : W) result,
     ExecContext ctx q args (db.sent ctx w) = (w3, Ok result) ->
     exists rows : list (gmap gostring any),
       db.Exec ctx q args scanner w =
         Some ((time_Now w3).1,
               {| db.Error := [];
                  db.Cost := Duration_String (time_Sub (time_Now w3).2 (db.started ctx w));
                  db.Rows := rows |})) /\
  (forall e : error,
     json.Marshal {| db.Error := e; db.Cost := []; db.Rows := [] |} =
     Ok (JObject (match e with [] => [] | _ => [(lit "error", JString e)] end))).
Proof.
  split; [|split; [|split; [|split; [|split; [|split; [|split]]]]]].
  - intros rw rw' r world world' logs. unfold main.handle_query.
    destruct (db.RunSQL _ _ _) as [[world1 qr]|]; [|done].
    destruct (json.Marshal qr) as [doc|e] eqn:Hm; intros [= <- <- <-];
      exists qr; (split; [done|]).
    + right. destruct (Marshal_fields qr doc Hm) as (fields & -> & Hkeys & Hvals).
      by exists fields.
    + left. by exists e.
  - apply RunSQL_dispatch.
  - apply Query_operation_fails.
  - apply Query_scan_fails.
  - apply Query_succeeds.
  - apply Exec_operation_fails.
  - intros ctx q args scanner w w3 result Hexec.
    destruct (Exec_succeeds ctx q args scanner w w3 result Hexec) as (rows & _ & Heq).
    by exists rows.
  - apply Marshal_error_only.
Qed.

(** C8: [RunSQL] panics exactly on the query strings that hold nothing
    but white space (the empty string included), and so does the handler
    of [/query], a request without [q] among them; on every other query
    [RunSQL] returns a result. *)
Theorem RunSQL_panics_on_blank_query :
  (forall ctx query (w : W),
     db.RunSQL ctx query w = None <->
     Forall (fun r => unicode.IsSpace r = true) query) /\
  (forall ctx query (w : W),
     ~ Forall (fun r => unicode.IsSpace r = true) query ->
     exists (w' : W) (qr : db.QueryResult), db.RunSQL ctx query w = Some (w', qr)) /\
  (forall rw r (world : W),
     main.handle_query rw r world = None <->
     Forall (fun c => unicode.IsSpace c = true) (http.Get (http.URL_Query r) (lit "q"))) /\
  (forall rw r (world : W),
     http.URL_Query r !! lit "q" = None -> main.handle_query rw r world = None).
Proof.
  assert (forall rw r (world : W),
     main.handle_query rw r world = None <->
     Forall (fun c => unicode.IsSpace c = true) (http.Get (http.URL_Query r) (lit "q")))
    as Hhandler.
  { intros rw r world. rewrite <- (RunSQL_panics_iff (http.req_Context r) _ world).
    unfold main.handle_query.
    destruct (db.RunSQL _ _ _) as [[world1 qr]|]; [|done].
    by destruct (json.Marshal qr). }
  split; [|split; [|split]].
  - apply RunSQL_panics_iff.
  - intros ctx query w Hq.
    destruct (db.RunSQL ctx query w) as [[w' qr]|] eqn:Hrun; [by eauto|].
    by apply RunSQL_panics_iff in Hrun.
  - exact Hhandler.
  - intros rw r world Hq. apply Hhandler. unfold http.Get. rewrite Hq. constructor.
Qed.

(** C9: a [/query] run returns at most 30 rows: [RunSQL] hands [Query]
    and [Exec] a scanner of offset 0 and limit 30; and [AddRow], for a row
    index and a limit that are not negative and sums that do not
    overflow, appends the row exactly when [Offset <= i] and
    [i+1 <= Limit+Offset], and answers false exactly when
    [i+1 > Limit+Offset]. *)
Theorem RunSQL_returns_at_most_30_rows :
  (forall ctx query (w w' : W) (qr : db.QueryResult),
     db.RunSQL ctx query w = Some (w', qr) -> (length (db.Rows qr) <= 30)%nat) /\
  (db.Offset (db.NewJsonRowsScanner 0 30) = 0 /\
   db.Limit (db.NewJsonRowsScanner 0 30) = 30 /\
   forall ctx query (w : W),
     strings.Fields query <> [] ->
     db.RunSQL ctx query w = db.Query ctx query [] (db.NewJsonRowsScanner 0 30) w \/
     db.RunSQL ctx query w = db.Exec ctx query [] (db.NewJsonRowsScanner 0 30) w) /\
  (forall (j : db.JsonRowsScanner) (i : Z) (columns : list any),
     0 <= i < maxInt ->
     0 <= db.Limit j ->
     minInt <= db.Limit j + db.Offset j <= maxInt ->
     (length (db.Header j) <= length columns)%nat ->
     exists (j' : db.JsonRowsScanner) (more : bool) (row : gmap gostring any),
       db.AddRow j i columns = Some (j', more) /\
       db.fill_row (db.Header j) 0 columns ∅ = Some row /\
       (db.Offset j <= i /\ i + 1 <= db.Limit j + db.Offset j ->
        db.j_Rows j' = db.j_Rows j ++ [row]) /\
       (~ (db.Offset j <= i /\ i + 1 <= db.Limit j + db.Offset j) ->
        db.j_Rows j' = db.j_Rows j) /\
       (more = false <-> i + 1 > db.Limit j + db.Offset j)).
Proof.
  split; [|split; [split; [done|split; [done|]]|]].
  - intros ctx query w w' qr Hrun.
    destruct (strings.Fields query) as [|first rest] eqn:Hf.
    { unfold db.RunSQL in Hrun. by rewrite Hf in Hrun. }
    destruct (RunSQL_dispatch ctx query w) as [Heq|Heq]; [by rewrite Hf|..];
      rewrite Heq in Hrun.
    + by eapply Query_limit.
    + by eapply Exec_limit.
  - apply RunSQL_dispatch.
  - apply AddRow_appends_iff.
Qed.

(** C10: [PingDB] returns nil whatever the database does: it sends
    [select 1] at most three times, sleeps 100ms after each failed
    attempt, stops at the first attempt that succeeds, and returns nil
    also when all three failed. *)
Theorem PingDB_returns_nil (ctx : Context) (timeout : Duration) (w : W) :
  (db.PingDB ctx timeout w).2 = None /\
  exists failures : nat,
    (failures <= 3)%nat /\
    (db.PingDB ctx timeout w).1.2 =
      concat (replicate failures
                [db.Probe (lit "select 1") false; db.Slept (100 * Millisecond)])
      ++ (if (failures <? 3)%nat then [db.Probe (lit "select 1") true] else []).
Proof.
  rewrite PingDB_world. split; [done|]. apply ping_loop_events.
Qed.

End FacadeClaims.

(** ** Column kinds and conversion rules *)

Section KindClaims.
Context `{CaseTables} `{Libs}.

Lemma NullAny_Scan_by_table (ns : db.NullAny) (value : any) :
  db.NullAny_Scan ns value = rules.scan_with_table ns value.
Proof.
  destruct ns as [v0 k valid].
  unfold db.NullAny_Scan, rules.scan_with_table, rules.table.
  cbn [db.ns_Value db.ns_ValueType db.ns_Valid rules.lookup_rule].
  unfold db.ValueTypeBool, db.ValueTypeInt64, db.ValueTypeFloat64,
    db.ValueTypeString, db.ValueTypeBytes, db.ValueTypeOther.
  destruct (Z.eqb_spec k 1) as [->|?].
  { unfold rules.bool_rule. destruct (sql_NullBool_Scan value) eqn:Hs.
    destruct value; cbn; rewrite ?Hs; done. }
  destruct (Z.eqb_spec k 2) as [->|?].
  { unfold rules.int64_rule. destruct (sql_NullInt64_Scan value) eqn:Hs.
    destruct value; cbn; rewrite ?Hs; done. }
  destruct (Z.eqb_spec k 3) as [->|?].
  { unfold rules.float64_rule. destruct (sql_NullFloat64_Scan value) eqn:Hs.
    destruct value; cbn; rewrite ?Hs; done. }
  destruct (Z.eqb_spec k 4) as [->|?].
  { unfold rules.string_rule. destruct (sql_NullString_Scan value) eqn:Hs.
    destruct value; cbn; rewrite ?Hs; done. }
  destruct (Z.eqb_spec k 5) as [->|?].
  { unfold rules.bytes_rule, rules.other_rule. destruct value; done. }
  destruct (Z.eqb_spec k 6) as [->|?].
  { unfold rules.other_rule. destruct value; done. }
  unfold rules.other_rule. destruct value; done.
Qed.

(** C5: the kind of a column is one of the six named kinds and is chosen
    by the first test that its upper-cased database type name passes
    (CHAR/TEXT/NVARCHAR: string; BOOL: bool; INT/NUMBER: int64; DECIMAL:
    float64; LOB: bytes; else other); every kind is the kind of some type
    name; and [NullAny.Scan] applies to a non-nil value the one rule the
    table has for the receiver's kind. *)
Theorem column_kinds_and_rules :
  (forall columnType : sql.ColumnType,
     let has := fun s =>
       strings.Contains (strings.ToUpper (sql.DatabaseTypeName columnType)) (lit s) = true in
     let kind := db.columnValueType columnType in
     kind ∈ [db.ValueTypeBool; db.ValueTypeInt64; db.ValueTypeFloat64;
             db.ValueTypeString; db.ValueTypeBytes; db.ValueTypeOther] /\
     (kind = db.ValueTypeString <-> has "CHAR" \/ has "TEXT" \/ has "NVARCHAR") /\
     (kind = db.ValueTypeBool <->
        ~ (has "CHAR" \/ has "TEXT" \/ has "NVARCHAR") /\ has "BOOL") /\
     (kind = db.ValueTypeInt64 <->
        ~ (has "CHAR" \/ has "TEXT" \/ has "NVARCHAR") /\ ~ has "BOOL" /\
        (has "INT" \/ has "NUMBER")) /\
     (kind = db.ValueTypeFloat64 <->
        ~ (has "CHAR" \/ has "TEXT" \/ has "NVARCHAR") /\ ~ has "BOOL" /\
        ~ (has "INT" \/ has "NUMBER") /\ has "DECIMAL") /\
     (kind = db.ValueTypeBytes <->
        ~ (has "CHAR" \/ has "TEXT" \/ has "NVARCHAR") /\ ~ has "BOOL" /\
        ~ (has "INT" \/ has "NUMBER") /\ ~ has "DECIMAL" /\ has "LOB") /\
     (kind = db.ValueTypeOther <->
        ~ (has "CHAR" \/ has "TEXT" \/ has "NVARCHAR") /\ ~ has "BOOL" /\
        ~ (has "INT" \/ has "NUMBER") /\ ~ has "DECIMAL" /\ ~ has "LOB")) /\
  (db.columnValueType {| sql.DatabaseTypeName := lit "varchar" |} = db.ValueTypeString /\
   db.columnValueType {| sql.DatabaseTypeName := lit "BOOLEAN" |} = db.ValueTypeBool /\
   db.columnValueType {| sql.DatabaseTypeName := lit "BIGINT" |} = db.ValueTypeInt64 /\
   db.columnValueType {| sql.DatabaseTypeName := lit "DECIMAL" |} = db.ValueTypeFloat64 /\
   db.columnValueType {| sql.DatabaseTypeName := lit "BLOB" |} = db.ValueTypeBytes /\
   db.columnValueType {| sql.DatabaseTypeName := lit "DATETIME" |} = db.ValueTypeOther) /\
  (rules.table.*1 =
     [db.ValueTypeBool; db.ValueTypeInt64; db.ValueTypeFloat64;
      db.ValueTypeString; db.ValueTypeBytes; db.ValueTypeOther] /\
   NoDup (rules.table.*1)) /\
  (forall (ns : db.NullAny) (value : any),
     db.NullAny_Scan ns value = rules.scan_with_table ns value).
Proof.
  split; [|split; [|split]].
  - intros columnType has kind. subst has kind. unfold db.columnValueType.
    cbn [db.Contains].
    set (name := strings.ToUpper (sql.DatabaseTypeName columnType)).
    destruct (strings.Contains name (lit "CHAR")),
      (strings.Contains name (lit "TEXT")),
      (strings.Contains name (lit "NVARCHAR")),
      (strings.Contains name (lit "BOOL")),
      (strings.Contains name (lit "INT")),
      (strings.Contains name (lit "NUMBER")),
      (strings.Contains name (lit "DECIMAL")),
      (strings.Contains name (lit "LOB"));
      unfold db.ValueTypeBool, db.ValueTypeInt64, db.ValueTypeFloat64,
        db.ValueTypeString, db.ValueTypeBytes, db.ValueTypeOther;
      (split; [apply (bool_decide_unpack _); by vm_compute|]);
      intuition (discriminate || congruence).
  - repeat split; vm_compute; reflexivity.
  - split; [done|]. apply (bool_decide_unpack _). by vm_compute.
  - apply NullAny_Scan_by_table.
Qed.

End KindClaims.

(** ** The handler of [/enable] *)

Section EnableClaim.
Variable Manager : Type.
Variable Enable : Manager -> gostring -> bool -> Manager * bool.

(** Whatever [Enable] is, the handler of [/enable] calls it once, with
    the value of [target] and with the flag that is true exactly when
    [disable] is the string 1; the manager it leaves is the one [Enable]
    returned; the response has status 404 exactly when [Enable] answered
    false, and status 200 otherwise. What the flag does to the target is
    up to [Enable]. *)
Lemma handle_enable_forwards (r : http.Request) (mgr : Manager) :
  let target := http.Get (http.URL_Query r) (lit "target") in
  let disable := http.Get (http.URL_Query r) (lit "disable") in
  exists flag : bool,
    (flag = true <-> disable = lit "1") /\
    (main.handle_enable Manager Enable http.new_writer r mgr).1
      = (Enable mgr target flag).1 /\
    (http.status_sent (main.handle_enable Manager Enable http.new_writer r mgr).2
       = http.StatusNotFound <-> (Enable mgr target flag).2 = false) /\
    (http.status_sent (main.handle_enable Manager Enable http.new_writer r mgr).2
       = http.StatusOK <-> (Enable mgr target flag).2 = true) /\
    http.body (main.handle_enable Manager Enable http.new_writer r mgr).2 = [].
Proof.
  intros target disable.
  exists (bool_decide (disable = lit "1")).
  split; [apply bool_decide_eq_true|].
  unfold main.handle_enable. fold target. fold disable.
  destruct (Enable mgr target (bool_decide (disable = lit "1"))) as [mgr' found].
  destruct found; simpl; repeat split; try done.
Qed.

End EnableClaim.

(** ** The connection manager *)

Module dualconn_facts.
Import dualconn.

(** *** The registry *)

Lemma update_target_addresses (addr : gostring) (f : Target -> Target) (ts : list Target) :
  (forall t, address (f t) = address t) ->
  address <$> (update_target addr f ts).1 = address <$> ts.
Proof.
  intros Hf. induction ts as [|t ts IH]; [done|]. simpl.
  case_bool_decide.
  - simpl. by rewrite Hf.
  - destruct (update_target addr f ts) as [ts' found]. simpl in *. by f_equal.
Qed.

Lemma update_target_found (addr : gostring) (f : Target -> Target) (ts : list Target) :
  (update_target addr f ts).2 = bool_decide (addr ∈ address <$> ts).
Proof.
  induction ts as [|t ts IH]; [done|]. cbn [update_target fmap list_fmap].
  destruct (decide (address t = addr)) as [Ht|Ht].
  - rewrite (bool_decide_eq_true_2 (address t = addr)) by done. simpl.
    symmetry. apply bool_decide_eq_true_2. subst. apply elem_of_cons. by left.
  - rewrite (bool_decide_eq_false_2 (address t = addr)) by done.
    destruct (update_target addr f ts) as [ts' found]. simpl in *. rewrite IH.
    apply bool_decide_ext. rewrite elem_of_cons. intuition congruence.
Qed.

Lemma update_target_missing (addr : gostring) (f : Target -> Target) (ts : list Target) :
  addr ∉ address <$> ts -> update_target addr f ts = (ts, false).
Proof.
  induction ts as [|t ts IH]; [done|]. simpl. intros Hnot.
  apply not_elem_of_cons in Hnot as [Hne Hnot].
  rewrite bool_decide_eq_false_2 by done. by rewrite IH.
Qed.

Lemma update_target_twice (addr : gostring) (f g : Target -> Target) (ts : list Target) :
  (forall t, address (f t) = address t) ->
  (update_target addr g (update_target addr f ts).1).1
    = (update_target addr (fun t => g (f t)) ts).1.
Proof.
  intros Hf. induction ts as [|t ts IH]; [done|]. simpl.
  case_bool_decide as Ht.
  - simpl. by rewrite bool_decide_eq_true_2 by (by rewrite Hf).
  - destruct (update_target addr f ts) as [ts1 found1].
    destruct (update_target addr (fun t => g (f t)) ts) as [ts2 found2].
    simpl in *. rewrite bool_decide_eq_false_2 by done.
    destruct (update_target addr g ts1) as [ts3 found3]. simpl in *. by rewrite IH.
Qed.

Lemma update_target_comm (a b : gostring) (f g : Target -> Target) (ts : list Target) :
  (forall t, address (f t) = address t) ->
  (forall t, address (g t) = address t) ->
  (forall t, f (g t) = g (f t)) ->
  (update_target a f (update_target b g ts).1).1
    = (update_target b g (update_target a f ts).1).1.
Proof.
  intros Hf Hg Hfg. induction ts as [|t ts IH]; [done|]. simpl.
  destruct (decide (address t = b)) as [Hb|Hb], (decide (address t = a)) as [Ha|Ha].
  - rewrite !bool_decide_eq_true_2 by done. simpl.
    rewrite !bool_decide_eq_true_2 by (by rewrite ?Hf, ?Hg). simpl. by rewrite Hfg.
  - rewrite (bool_decide_eq_true_2 (address t = b)) by done.
    rewrite (bool_decide_eq_false_2 (address t = a)) by done. simpl.
    rewrite (bool_decide_eq_false_2 (address (g t) = a)) by (by rewrite Hg).
    destruct (update_target a f ts) as [ts1 found1]. simpl.
    by rewrite bool_decide_eq_true_2 by done.
  - rewrite (bool_decide_eq_false_2 (address t = b)) by done.
    rewrite (bool_decide_eq_true_2 (address t = a)) by done. simpl.
    destruct (update_target b g ts) as [ts1 found1]. simpl.
    rewrite (bool_decide_eq_true_2 (address t = a)) by done. simpl.
    by rewrite (bool_decide_eq_false_2 (address (f t) = b)) by (by rewrite Hf).
  - rewrite (bool_decide_eq_false_2 (address t = b)) by done.
    rewrite (bool_decide_eq_false_2 (address t = a)) by done.
    destruct (update_target b g ts) as [ts1 found1].
    destruct (update_target a f ts) as [ts2 found2]. simpl in *.
    rewrite (bool_decide_eq_false_2 (address t = b)) by done.
    rewrite (bool_decide_eq_false_2 (address t = a)) by done.
    destruct (update_target a f ts1) as [ts3 found3].
    destruct (update_target b g ts2) as [ts4 found4]. simpl in *. by rewrite IH.
Qed.

Lemma lookup_update_target (a b : gostring) (f : Target -> Target) (ts : list Target) :
  (forall t, address (f t) = address t) ->
  lookup_target b (update_target a f ts).1
    = if bool_decide (a = b) then f <$> lookup_target b ts else lookup_target b ts.
Proof.
  intros Hf. induction ts as [|t ts IH]; simpl.
  - by case_bool_decide.
  - destruct (decide (address t = a)) as [Ha|Ha].
    + rewrite (bool_decide_eq_true_2 (address t = a)) by done. simpl. rewrite Hf.
      destruct (decide (a = b)) as [Hab|Hab].
      * rewrite (bool_decide_eq_true_2 (a = b)) by done.
        by rewrite !bool_decide_eq_true_2 by congruence.
      * rewrite (bool_decide_eq_false_2 (a = b)) by done.
        by rewrite !bool_decide_eq_false_2 by congruence.
    + rewrite (bool_decide_eq_false_2 (address t = a)) by done.
      destruct (update_target a f ts) as [ts1 found1]. simpl in *.
      destruct (decide (address t = b)) as [Hb|Hb].
      * rewrite !(bool_decide_eq_true_2 (address t = b)) by done.
        rewrite bool_decide_eq_false_2 by congruence. done.
      * rewrite !(bool_decide_eq_false_2 (address t = b)) by done. exact IH.
Qed.

Lemma stats_of_update_stats (m : Manager) (c c' : Wrapper)
    (f : ConnectionStats -> ConnectionStats) :
  stats_of (update_stats m c f) c'
    = if decide (c = c') then f <$> stats_of m c' else stats_of m c'.
Proof.
  unfold stats_of, update_stats. simpl.
  rewrite lookup_update_target by done.
  destruct (lookup_target (w_address c') (targets m)) as [t|] eqn:Ht;
    case_bool_decide as Haddr; case_decide as Hc; simpl; try done.
  - subst c'. rewrite lookup_alter. by rewrite decide_True.
  - rewrite lookup_alter. rewrite decide_False; [done|].
    intros Hid. apply Hc. destruct c, c'. simpl in *. congruence.
  - subst c'. done.
Qed.

(** *** Dialling *)

Lemma attempt_all_succeeded (net : Network) (timeout : Duration) (addrs : list gostring) :
  (attempt_all net timeout addrs).1
    = filter (fun a => reachable net timeout a = true) addrs.
Proof.
  induction addrs as [|a addrs IH]; [done|]. simpl.
  destruct (attempt_all net timeout addrs) as [succeeded failed]. simpl in IH.
  rewrite filter_cons.
  destruct (decide (reachable net timeout a = true)) as [Hr|Hr];
    unfold reachable in Hr; destruct (dial_outcome net timeout a) as [e|] eqn:Ha;
    simpl; try done.
  by f_equal.
Qed.

(** The first element a filter keeps, with what the filter skipped
    before it. *)
Lemma filter_first {A : Type} (P : A -> Prop) `{forall x, Decision (P x)}
    (l : list A) (x : A) (rest : list A) :
  filter P l = x :: rest ->
  exists before after,
    l = before ++ x :: after /\ P x /\ Forall (fun y => ~ P y) before /\
    rest = filter P after.
Proof.
  induction l as [|y l IH]; [done|]. rewrite filter_cons.
  destruct (decide (P y)) as [Hy|Hy].
  - intros [= -> <-]. exists [], l. by repeat split.
  - intros Hl. destruct (IH Hl) as (before & after & -> & Hx & Hbefore & Hrest).
    exists (y :: before), after. repeat split; try done. by constructor.
Qed.

Lemma snapshot_reachable (net : Network) (m : Manager) :
  filter (fun a => reachable net (dialTimeout m) a = true)
         (address <$> snapshotEnabledOrder m)
  = address <$> filter (fun t => enabled t = true /\
                                 reachable net (dialTimeout m) (address t) = true)
                       (targets m).
Proof.
  unfold snapshotEnabledOrder.
  induction (targets m) as [|t ts IH]; [done|].
  rewrite !filter_cons.
  destruct (decide (enabled t = true)) as [He|He].
  - rewrite fmap_cons, filter_cons.
    destruct (decide (reachable net (dialTimeout m) (address t) = true)) as [Hr|Hr].
    + rewrite decide_True by done. rewrite fmap_cons. by f_equal.
    + rewrite decide_False by tauto. done.
  - rewrite decide_False by tauto. done.
Qed.

(** What a mirroring dial returns, in terms of the addresses whose dial
    succeeded. *)
Lemma dial_mirroring_result (net : Network) (m : Manager) :
  match filter (fun a => reachable net (dialTimeout m) a = true)
               (address <$> snapshotEnabledOrder m) with
  | [] => exists fault, (dial net m true).2 = inr fault
  | p :: halos =>
      (dial net m true).2 =
        inl {| protagonist := wrapper_of net p; haloSet := wrapper_of net <$> halos |}
  end.
Proof.
  unfold dial.
  destruct (address <$> snapshotEnabledOrder m) as [|first others] eqn:Hsnap.
  - rewrite filter_nil. by eexists.
  - rewrite <- attempt_all_succeeded.
    destruct (attempt_all net (dialTimeout m) (first :: others)) as [[|p halos] failed].
    + by eexists.
    + done.
Qed.

(** C1: with mirroring on, [dial] returns a connection exactly when some
    enabled target is reachable within the dial timeout; the protagonist
    is then the first target, in configured order, that is enabled and
    reachable, every target before it being disabled or unreachable, and
    the halo set is made of the enabled and reachable targets after
    it. *)
Theorem dial_protagonist_is_earliest (net : Network) (m : Manager) :
  ((exists c, (dial net m true).2 = inl c) <->
   (exists t, t ∈ targets m /\ enabled t = true /\
              reachable net (dialTimeout m) (address t) = true)) /\
  (forall c, (dial net m true).2 = inl c ->
     exists before p after,
       targets m = before ++ p :: after /\
       enabled p = true /\ reachable net (dialTimeout m) (address p) = true /\
       Forall (fun t => ~ (enabled t = true /\
                           reachable net (dialTimeout m) (address t) = true)) before /\
       w_address (protagonist c) = address p /\
       w_address <$> haloSet c =
         address <$> filter (fun t => enabled t = true /\
                                      reachable net (dialTimeout m) (address t) = true)
                            after).
Proof.
  pose proof (dial_mirroring_result net m) as Hdial.
  rewrite snapshot_reachable in Hdial.
  set (Q := fun t => enabled t = true /\
                     reachable net (dialTimeout m) (address t) = true) in *.
  destruct (filter Q (targets m)) as [|p rest] eqn:Hfilter; simpl in Hdial.
  - destruct Hdial as [fault Hfault]. split.
    + split.
      * intros [c Hc]. congruence.
      * intros (t & Ht & He & Hr). exfalso.
        assert (t ∈ filter Q (targets m)) as Hin by (apply list_elem_of_filter; by split).
        rewrite Hfilter in Hin. by apply elem_of_nil in Hin.
    + intros c Hc. congruence.
  - destruct (filter_first Q (targets m) p rest Hfilter)
      as (before & after & Hsplit & [He Hr] & Hbefore & Hrest).
    split.
    + split; [|by eauto].
      intros _. exists p. split; [|done]. rewrite Hsplit.
      apply elem_of_app. right. apply elem_of_cons. by left.
    + intros c Hc. rewrite Hdial in Hc. injection Hc as <-.
      exists before, p, after. repeat split; try done. simpl.
      rewrite <- Hrest. clear. induction rest as [|t rest IH]; [done|].
      simpl. by f_equal.
Qed.

(** *** Writing through a composite connection *)

Lemma closed_in_update (m : Manager) (c h : Wrapper)
    (f : ConnectionStats -> ConnectionStats) :
  (forall s, closed s = true -> closed (f s) = true) ->
  closed_in m h -> closed_in (update_stats m c f) h.
Proof.
  intros Hf Hm s. rewrite stats_of_update_stats.
  case_decide; [|by apply Hm].
  destruct (stats_of m h) as [s0|] eqn:Hs; [|done].
  intros [= <-]. apply Hf. by apply Hm.
Qed.

Lemma closed_in_mark (m : Manager) (h : Wrapper) :
  closed_in (update_stats m h mark_closed) h.
Proof.
  intros s. rewrite stats_of_update_stats, decide_True by done.
  destruct (stats_of m h); [|done]. by intros [= <-].
Qed.

Lemma mirror_preserves_closed (net : Network) (buffer : list byte)
    (halos : list Wrapper) (m : Manager) (h : Wrapper) :
  closed_in m h -> closed_in (mirror net m halos buffer).1 h.
Proof.
  revert m. induction halos as [|h' halos IH]; intros m Hm; [done|]. simpl.
  destruct (halo_write_failed buffer (transport_write net h' buffer)).
  - apply IH. by apply closed_in_update.
  - specialize (IH (update_stats m h' (wrote (transport_write net h' buffer).1 (now net)))).
    destruct (mirror net _ halos buffer) as [m' kept]. simpl in *.
    apply IH. by apply closed_in_update.
Qed.

Lemma mirror_closes_failed (net : Network) (buffer : list byte)
    (halos : list Wrapper) (m : Manager) (h : Wrapper) :
  h ∈ halos ->
  halo_write_failed buffer (transport_write net h buffer) = true ->
  closed_in (mirror net m halos buffer).1 h.
Proof.
  revert m. induction halos as [|h' halos IH]; intros m Hin Hfail.
  - by apply elem_of_nil in Hin.
  - simpl. apply elem_of_cons in Hin as [->|Hin].
    + rewrite Hfail. apply mirror_preserves_closed, closed_in_mark.
    + destruct (halo_write_failed buffer (transport_write net h' buffer)).
      * by apply IH.
      * specialize (IH (update_stats m h' (wrote (transport_write net h' buffer).1 (now net)))).
        destruct (mirror net _ halos buffer) as [m' kept]. simpl in *. by apply IH.
Qed.

Lemma mirror_keeps_records (net : Network) (buffer : list byte)
    (halos : list Wrapper) (m : Manager) (h : Wrapper) :
  is_Some (stats_of m h) -> is_Some (stats_of (mirror net m halos buffer).1 h).
Proof.
  revert m. induction halos as [|h' halos IH]; intros m Hm; [done|]. simpl.
  destruct (halo_write_failed buffer (transport_write net h' buffer)).
  - apply IH. rewrite stats_of_update_stats. case_decide; [|done].
    by apply fmap_is_Some.
  - specialize (IH (update_stats m h' (wrote (transport_write net h' buffer).1 (now net)))).
    destruct (mirror net _ halos buffer) as [m' kept]. simpl in *.
    apply IH. rewrite stats_of_update_stats. case_decide; [|done].
    by apply fmap_is_Some.
Qed.

Lemma mirror_kept (net : Network) (buffer : list byte)
    (halos : list Wrapper) (m : Manager) :
  (mirror net m halos buffer).2
    = filter (fun h => halo_write_failed buffer (transport_write net h buffer) = false)
             halos.
Proof.
  revert m. induction halos as [|h halos IH]; intros m; [done|]. simpl.
  rewrite filter_cons.
  destruct (halo_write_failed buffer (transport_write net h buffer)) eqn:Hfail.
  - rewrite decide_False by done. apply IH.
  - rewrite decide_True by done.
    specialize (IH (update_stats m h (wrote (transport_write net h buffer).1 (now net)))).
    destruct (mirror net _ halos buffer) as [m' kept]. simpl in *. by f_equal.
Qed.

(** C2: the pair [write] returns is the pair the protagonist's
    transport returned, whatever the halo members do; and when the
    protagonist's write succeeds, the halo set that remains is the old
    one without the members whose write failed or was short, each of
    which has its statistics marked closed. *)
Theorem write_returns_protagonist_result
    (net : Network) (m : Manager) (c : CompositeConnection) (buffer : list byte) :
  (write net m c buffer).2 = transport_write net (protagonist c) buffer /\
  (forall net' : Network,
     transport_write net' (protagonist c) buffer
       = transport_write net (protagonist c) buffer ->
     (write net' m c buffer).2 = (write net m c buffer).2) /\
  (forall n : Z,
     transport_write net (protagonist c) buffer = (n, None) ->
     protagonist ((write net m c buffer).1.2) = protagonist c /\
     haloSet ((write net m c buffer).1.2)
       = filter (fun h => halo_write_failed buffer (transport_write net h buffer) = false)
                (haloSet c) /\
     forall h : Wrapper,
       h ∈ haloSet c ->
       halo_write_failed buffer (transport_write net h buffer) = true ->
       (h ∉ haloSet ((write net m c buffer).1.2)) /\
       (forall s, stats_of ((write net m c buffer).1.1) h = Some s -> closed s = true) /\
       (is_Some (stats_of m h) -> is_Some (stats_of ((write net m c buffer).1.1) h))).
Proof.
  assert (forall net0 : Network,
            (write net0 m c buffer).2 = transport_write net0 (protagonist c) buffer)
    as Hresult.
  { intros net0. unfold write.
    destruct (transport_write net0 (protagonist c) buffer) as [n [e|]]; [done|].
    by destruct (mirror net0 _ (haloSet c) buffer). }
  split; [apply Hresult|]. split.
  { intros net' Hsame. by rewrite !Hresult. }
  intros n Hn. unfold write. rewrite Hn.
  pose proof (mirror_kept net buffer (haloSet c)
                (update_stats m (protagonist c) (wrote n (now net)))) as Hkept.
  pose proof (mirror_closes_failed net buffer (haloSet c)
                (update_stats m (protagonist c) (wrote n (now net)))) as Hclosed.
  pose proof (mirror_keeps_records net buffer (haloSet c)
                (update_stats m (protagonist c) (wrote n (now net)))) as Hrecords.
  destruct (mirror net _ (haloSet c) buffer) as [m2 kept]. simpl in *.
  split; [done|]. split; [done|].
  intros h Hin Hfail. split; [|split].
  - rewrite Hkept. rewrite list_elem_of_filter. intros [Hok _]. congruence.
  - by apply Hclosed.
  - intros Hsome. apply Hrecords. rewrite stats_of_update_stats.
    case_decide; [|done]. by apply fmap_is_Some.
Qed.

(** *** Enabling and disabling *)

Lemma setEnabled_unknown (m : Manager) (addr : gostring) (en : bool) :
  addr ∉ address <$> targets m -> setEnabled m addr en = (m, false).
Proof.
  intros Hnot. unfold setEnabled. rewrite update_target_missing by done.
  by destruct m.
Qed.

Lemma setEnabled_found (m : Manager) (addr : gostring) (en : bool) :
  (setEnabled m addr en).2 = bool_decide (addr ∈ address <$> targets m).
Proof.
  unfold setEnabled.
  pose proof (update_target_found addr (set_flag en) (targets m)) as Hfound.
  unfold set_flag in Hfound.
  by destruct (update_target addr _ (targets m)) as [ts found].
Qed.

Lemma setEnabled_targets (m : Manager) (addr : gostring) (en : bool) :
  targets (setEnabled m addr en).1 = (update_target addr (set_flag en) (targets m)).1.
Proof.
  unfold setEnabled, set_flag.
  by destruct (update_target addr _ (targets m)) as [ts found].
Qed.

Lemma setEnabled_manager (m : Manager) (addr : gostring) (en : bool) :
  (setEnabled m addr en).1
    = with_targets m (update_target addr (set_flag en) (targets m)).1.
Proof.
  unfold setEnabled, set_flag.
  by destruct (update_target addr _ (targets m)) as [ts found].
Qed.

Lemma update_target_id (addr : gostring) (f : Target -> Target) (ts : list Target) :
  (forall t, lookup_target addr ts = Some t -> f t = t) ->
  (update_target addr f ts).1 = ts.
Proof.
  induction ts as [|t ts IH]; [done|]. simpl. intros Hf.
  case_bool_decide as Ht.
  - simpl. f_equal. by apply Hf.
  - destruct (update_target addr f ts) as [ts' found]. simpl in *. f_equal. by apply IH.
Qed.

(** The claim of C6 as it is written fails on a freshly constructed
    registry: the target starts enabled, and enabling then disabling it
    leaves it disabled, so its flag is not back at its original value. *)
Lemma setEnabled_true_then_false_changes_flag :
  addr_A ∈ address <$> targets example_manager /\
  enabled <$> lookup_target addr_A (targets example_manager) = Some true /\
  enabled <$> lookup_target addr_A
    (targets (setEnabled (setEnabled example_manager addr_A true).1 addr_A false).1)
    = Some false /\
  enabled <$> targets
    (setEnabled (setEnabled example_manager addr_A true).1 addr_A false).1
    <> enabled <$> targets example_manager.
Proof.
  split; [apply (bool_decide_unpack _); by vm_compute|].
  split; [by vm_compute|]. split; [by vm_compute|].
  vm_compute. discriminate.
Qed.

(** C6, amended: for a configured address, [setEnabled addr true]
    followed by [setEnabled addr false] both report the address found,
    leave the target disabled (which is its original flag only when it
    was disabled before) and leave the list of addresses as it was, so
    no entry is duplicated; for an address that is not configured, each
    call changes nothing and reports not found. *)
Theorem setEnabled_true_then_false (m : Manager) (addr : gostring) :
  (addr ∈ address <$> targets m ->
   (setEnabled m addr true).2 = true /\
   (setEnabled (setEnabled m addr true).1 addr false).2 = true /\
   (setEnabled (setEnabled m addr true).1 addr false).1 = (setEnabled m addr false).1 /\
   enabled <$> lookup_target addr
     (targets (setEnabled (setEnabled m addr true).1 addr false).1) = Some false /\
   address <$> targets (setEnabled (setEnabled m addr true).1 addr false).1
     = address <$> targets m /\
   (enabled <$> lookup_target addr (targets m) = Some false ->
    (setEnabled (setEnabled m addr true).1 addr false).1 = m)) /\
  (addr ∉ address <$> targets m ->
   setEnabled m addr true = (m, false) /\
   setEnabled (setEnabled m addr true).1 addr false = (m, false)).
Proof.
  split.
  - intros Hin.
    assert ((setEnabled (setEnabled m addr true).1 addr false).1
            = (setEnabled m addr false).1) as Htwice.
    { rewrite !setEnabled_manager. unfold with_targets. simpl. f_equal.
      by rewrite update_target_twice. }
    assert (address <$> targets (setEnabled m addr true).1 = address <$> targets m)
      as Haddr1.
    { rewrite setEnabled_targets. by apply update_target_addresses. }
    split; [|split; [|split; [|split; [|split]]]].
    + rewrite setEnabled_found. by apply bool_decide_eq_true_2.
    + rewrite setEnabled_found. apply bool_decide_eq_true_2. by rewrite Haddr1.
    + exact Htwice.
    + rewrite Htwice, setEnabled_targets, lookup_update_target by done.
      rewrite bool_decide_eq_true_2 by done.
      clear -Hin. induction (targets m) as [|t ts IH].
      * by apply elem_of_nil in Hin.
      * simpl. case_bool_decide as Ht; [done|]. apply IH.
        apply elem_of_cons in Hin as [Heq|Hin]; [congruence|done].
    + rewrite Htwice, setEnabled_targets. by apply update_target_addresses.
    + intros Hflag. rewrite Htwice, setEnabled_manager.
      rewrite update_target_id; [by destruct m|].
      intros t Ht. rewrite Ht in Hflag. simpl in Hflag. injection Hflag as Hflag.
      destruct t. simpl in *. by subst.
  - intros Hnot. rewrite setEnabled_unknown by done. simpl.
    by rewrite setEnabled_unknown by done.
Qed.

(** *** The handler of [/enable] over the registry *)






(** *** Open connections and later toggles *)

Lemma update_stats_setEnabled (m : Manager) (c : Wrapper)
    (f : ConnectionStats -> ConnectionStats) (addr : gostring) (en : bool) :
  update_stats (setEnabled m addr en).1 c f = (setEnabled (update_stats m c f) addr en).1.
Proof.
  rewrite !setEnabled_manager. unfold update_stats, with_targets. simpl. f_equal.
  by apply update_target_comm.
Qed.

Lemma update_stats_toggles (m : Manager) (c : Wrapper)
    (f : ConnectionStats -> ConnectionStats) (toggles : list (gostring * bool)) :
  update_stats (apply_toggles m toggles) c f = apply_toggles (update_stats m c f) toggles.
Proof.
  revert m. induction toggles as [|[addr en] toggles IH]; intros m; [done|].
  simpl. rewrite IH. by rewrite update_stats_setEnabled.
Qed.

Lemma mirror_toggles (net : Network) (buffer : list byte) (halos : list Wrapper)
    (m : Manager) (toggles : list (gostring * bool)) :
  mirror net (apply_toggles m toggles) halos buffer
    = (apply_toggles (mirror net m halos buffer).1 toggles,
       (mirror net m halos buffer).2).
Proof.
  revert m. induction halos as [|h halos IH]; intros m; [done|]. simpl.
  destruct (halo_write_failed buffer (transport_write net h buffer)).
  - rewrite update_stats_toggles. apply IH.
  - rewrite update_stats_toggles, IH.
    by destruct (mirror net (update_stats m h _) halos buffer).
Qed.

Lemma write_toggles (net : Network) (m : Manager) (c : CompositeConnection)
    (buffer : list byte) (toggles : list (gostring * bool)) :
  write net (apply_toggles m toggles) c buffer
    = (apply_toggles (write net m c buffer).1.1 toggles,
       (write net m c buffer).1.2, (write net m c buffer).2).
Proof.
  unfold write.
  destruct (transport_write net (protagonist c) buffer) as [n [e|]]; [done|].
  rewrite update_stats_toggles, mirror_toggles.
  by destruct (mirror net (update_stats m (protagonist c) _) (haloSet c) buffer).
Qed.

Lemma read_toggles (net : Network) (m : Manager) (c : CompositeConnection)
    (size : Z) (toggles : list (gostring * bool)) :
  read net (apply_toggles m toggles) c size
    = (apply_toggles (read net m c size).1 toggles, (read net m c size).2).
Proof.
  unfold read.
  destruct (transport_read net (protagonist c) size) as [data [e|]]; [done|].
  by rewrite update_stats_toggles.
Qed.

(** C7: once enable/disable calls have left every target disabled, the
    snapshot of enabled targets is empty and [dial] fails with
    DialFailure for want of an enabled target, leaving the registry as it
    is; a read or a write on a connection that is already open returns
    what it would have returned without those calls, and keeps the same
    halo set and the same statistics. *)
Theorem dial_fails_when_all_disabled
    (net : Network) (m : Manager) (toggles : list (gostring * bool))
    (c : CompositeConnection) (buffer : list byte) (size : Z) :
  (forall t, t ∈ targets (apply_toggles m toggles) -> enabled t = false) ->
  snapshotEnabledOrder (apply_toggles m toggles) = [] /\
  (forall (net' : Network) (mirroring : bool),
     dial net' (apply_toggles m toggles) mirroring
       = (apply_toggles m toggles, inr DialFailure_no_enabled_targets)) /\
  write net (apply_toggles m toggles) c buffer
    = (apply_toggles (write net m c buffer).1.1 toggles,
       (write net m c buffer).1.2, (write net m c buffer).2) /\
  read net (apply_toggles m toggles) c size
    = (apply_toggles (read net m c size).1 toggles, (read net m c size).2).
Proof.
  intros Hall.
  assert (snapshotEnabledOrder (apply_toggles m toggles) = []) as Hsnap.
  { unfold snapshotEnabledOrder.
    induction (targets (apply_toggles m toggles)) as [|t ts IH]; [done|].
    rewrite filter_cons. rewrite decide_False.
    - apply IH. intros t' Ht'. apply Hall. apply elem_of_cons. by right.
    - rewrite (Hall t); [done|]. apply elem_of_cons. by left. }
  split; [done|]. split; [|split].
  - intros net' mirroring. unfold dial. by rewrite Hsnap.
  - apply write_toggles.
  - apply read_toggles.
Qed.

End dualconn_facts.

(** * Worked examples

    The theorems above at the scripted world and at the example
    registry. *)

Section Examples.
Import dualconn dualconn_facts.

(** With only the second target reachable, it becomes the protagonist. *)
Lemma dial_protagonist_is_earliest_witness :
  (dial example_net example_manager true).2
    = inl {| protagonist := wrapper_of example_net addr_B; haloSet := [] |} /\
  exists before p after,
    targets example_manager = before ++ p :: after /\
    enabled p = true /\
    reachable example_net (dialTimeout example_manager) (address p) = true /\
    Forall (fun t => ~ (enabled t = true /\
              reachable example_net (dialTimeout example_manager) (address t) = true))
           before /\
    w_address (protagonist
                 {| protagonist := wrapper_of example_net addr_B; haloSet := [] |})
      = address p /\
    w_address <$> haloSet
                    {| protagonist := wrapper_of example_net addr_B; haloSet := [] |}
      = address <$> filter (fun t => enabled t = true /\
                  reachable example_net (dialTimeout example_manager) (address t) = true)
                  after.
Proof.
  split; [vm_compute; reflexivity|].
  apply (proj2 (dial_protagonist_is_earliest example_net example_manager)).
  vm_compute; reflexivity.
Defined.

(** A write of three bytes while the halo member's transport is broken:
    the caller gets the protagonist's [(3, nil)] and the halo set is
    empty afterwards. *)
Lemma write_returns_protagonist_result_witness :
  transport_write example_net_halo_down (protagonist example_connection) [1; 2; 3]
    = (3, None) /\
  (write example_net_halo_down example_dialled example_connection [1; 2; 3]).2
    = (3, None) /\
  haloSet ((write example_net_halo_down example_dialled example_connection [1; 2; 3]).1.2)
    = [].
Proof.
  split; [vm_compute; reflexivity|].
  destruct (write_returns_protagonist_result example_net_halo_down example_dialled
              example_connection [1; 2; 3]) as (Hresult & _ & Hhalo).
  split.
  - rewrite Hresult. vm_compute; reflexivity.
  - destruct (Hhalo 3 ltac:(vm_compute; reflexivity)) as (_ & -> & _).
    vm_compute; reflexivity.
Defined.

(** The first target of the example registry, enabled then disabled. *)
Lemma setEnabled_true_then_false_witness :
  addr_A ∈ address <$> targets example_manager /\
  (setEnabled (setEnabled example_manager addr_A true).1 addr_A false).2 = true /\
  (setEnabled (setEnabled example_manager addr_A true).1 addr_A false).1
    = (setEnabled example_manager addr_A false).1.
Proof.
  assert (addr_A ∈ address <$> targets example_manager) as Hin.
  { apply (bool_decide_unpack _). vm_compute. exact I. }
  split; [exact Hin|].
  destruct (proj1 (setEnabled_true_then_false example_manager addr_A) Hin)
    as (_ & Hfound & Hsame & _).
  by split.
Defined.

(** Both targets of the example registry disabled after a connection was
    opened. *)
Lemma dial_fails_when_all_disabled_witness :
  (forall t,
     t ∈ targets (apply_toggles example_dialled [(addr_A, false); (addr_B, false)]) ->
     enabled t = false) /\
  snapshotEnabledOrder (apply_toggles example_dialled [(addr_A, false); (addr_B, false)])
    = [] /\
  (write example_net (apply_toggles example_dialled [(addr_A, false); (addr_B, false)])
     example_connection [1; 2; 3]).2
    = (write example_net example_dialled example_connection [1; 2; 3]).2.
Proof.
  assert (forall t,
     t ∈ targets (apply_toggles example_dialled [(addr_A, false); (addr_B, false)]) ->
     enabled t = false) as Hall.
  { intros t Hin. vm_compute in Hin.
    repeat (apply elem_of_cons in Hin as [->|Hin]; [reflexivity|]).
    by apply elem_of_nil in Hin. }
  split; [exact Hall|].
  destruct (dial_fails_when_all_disabled example_net example_dialled
              [(addr_A, false); (addr_B, false)] example_connection [1; 2; 3] 3 Hall)
    as (Hsnap & _ & Hwrite & _).
  split; [exact Hsnap|]. by rewrite Hwrite.
Defined.


(** A query against a database that is down: the result carries the
    error only. A request whose query succeeds: the body is one object
    with the keys [cost] and [rows]. *)
Lemma query_response_fields_witness :
  (QueryContext (Queryer := scripted.queryer) Background (lit "select * from kv") []
     (@db.sent scripted.World scripted.database scripted.ticking Background
        scripted.world_down)
     = ({| scripted.clock := 300000001; scripted.queries := []; scripted.execs := [] |},
        Err (lit "connection refused")) /\
   scripted.Query Background (lit "select * from kv") [] (db.NewJsonRowsScanner 0 30)
     scripted.world_down
     = Some ({| scripted.clock := 300000001; scripted.queries := [];
                scripted.execs := [] |},
             {| db.Error := lit "connection refused"; db.Cost := []; db.Rows := [] |})) /\
  exists world' rw' logs qr fields,
    scripted.handle_query http.new_writer (scripted.request (lit "select * from kv"))
      scripted.world_ok = Some (world', rw', logs) /\
    scripted.RunSQL Background (lit "select * from kv") scripted.world_ok
      = Some (world', qr) /\
    logs = [] /\
    rw' = http.Write http.new_writer (JObject fields) /\
    fields.*1 = [lit "cost"; lit "rows"].
Proof.
  pose proof (@query_response_fields scripted.tables scripted.libs
                scripted.World scripted.database scripted.ticking)
    as (Hhandler & _ & Hfails & _).
  split.
  - split; [vm_compute; reflexivity|]. apply Hfails. vm_compute; reflexivity.
  - destruct (scripted.handle_query http.new_writer
                (scripted.request (lit "select * from kv")) scripted.world_ok)
      as [[[world' rw'] logs]|] eqn:Hh; [|vm_compute in Hh; discriminate Hh].
    destruct (Hhandler _ _ _ _ _ _ Hh) as (qr & Hrun & Hshape).
    assert (logs = [] /\ db.Error qr = [] /\ db.Cost qr <> [] /\ db.Rows qr <> [])
      as (Hlogs & Herr & Hcost & Hrows).
    { vm_compute in Hh. injection Hh as <- <- <-.
      vm_compute in Hrun. injection Hrun as <-. repeat split; discriminate. }
    destruct Hshape as [(e & _ & _ & He)|(fields & Hrw & _ & Hkeys & _)];
      [congruence|].
    exists world', rw', logs, qr, fields. repeat split; try done.
    rewrite Hkeys. rewrite bool_decide_eq_true_2 by done.
    by rewrite !bool_decide_eq_false_2 by done.
Defined.

(** A blank query panics, [select * from kv] does not. *)
Lemma RunSQL_panics_on_blank_query_witness :
  Forall (fun r => unicode.IsSpace r = true) (lit "  ") /\
  scripted.RunSQL Background (lit "  ") scripted.world_ok = None /\
  ~ Forall (fun r => unicode.IsSpace r = true) (lit "select * from kv") /\
  exists w' qr, scripted.RunSQL Background (lit "select * from kv") scripted.world_ok
                = Some (w', qr).
Proof.
  pose proof (@RunSQL_panics_on_blank_query scripted.tables scripted.libs
                scripted.World scripted.database scripted.ticking)
    as (Hblank & Hother & _).
  assert (Forall (fun r => unicode.IsSpace r = true) (lit "  ")) as Hsp.
  { vm_compute. repeat constructor. }
  assert (~ Forall (fun r => unicode.IsSpace r = true) (lit "select * from kv")) as Hns.
  { intros Hall. apply Forall_inv in Hall. vm_compute in Hall. discriminate Hall. }
  split; [exact Hsp|]. split; [by apply Hblank|]. split; [exact Hns|].
  by apply Hother.
Defined.

(** One row comes back from the scripted table; the first row offered
    to a fresh scanner is appended. *)
Lemma RunSQL_returns_at_most_30_rows_witness :
  (exists w' qr,
     scripted.RunSQL Background (lit "select * from kv") scripted.world_ok = Some (w', qr) /\
     (length (db.Rows qr) <= 30)%nat) /\
  exists j' more row,
    db.AddRow (db.StartRows (db.NewJsonRowsScanner 0 30) [lit "k"]) 0 [VString (lit "a")]
      = Some (j', more) /\
    db.j_Rows j' = [row] /\ more = true.
Proof.
  pose proof (@RunSQL_returns_at_most_30_rows scripted.tables scripted.libs
                scripted.World scripted.database scripted.ticking)
    as (Hlimit & _ & Hadd).
  split.
  - eexists _, _. split; [vm_compute; reflexivity|].
    eapply (Hlimit Background (lit "select * from kv") scripted.world_ok).
    vm_compute; reflexivity.
  - destruct (Hadd (db.StartRows (db.NewJsonRowsScanner 0 30) [lit "k"]) 0
                [VString (lit "a")])
      as (j' & more & row & Heq & _ & Happend & _ & Hmore);
      [vm_compute; split; congruence | vm_compute; congruence
      | vm_compute; split; congruence | simpl; lia |].
    exists j', more, row. split; [exact Heq|]. split.
    + apply Happend. vm_compute. split; congruence.
    + destruct more; [done|]. exfalso.
      assert (0 + 1 > 30 + 0) by (by apply Hmore). lia.
Defined.

End Examples.

(** * Further properties of the facade *)

(** ** UTF-8 *)

(** Arithmetic with division by constants. *)
Ltac divmod := Z.div_mod_to_equations; lia.

(** One comparison of the goal decided both ways, the impossible way
    closed by arithmetic. *)
Ltac cmp :=
  match goal with
  | |- context [?a =? ?b] => destruct (Z.eqb_spec a b)
  | |- context [?a <=? ?b] => destruct (Z.leb_spec a b)
  | |- context [?a <? ?b] => destruct (Z.ltb_spec a b)
  end; cbn [andb orb negb]; cbv iota; try (exfalso; divmod).

Section Utf8Facts.

Lemma ValidRune_spec (r : rune) :
  utf8.ValidRune r = true <-> (0 <= r < 55296 \/ 57343 < r <= 1114111).
Proof.
  unfold utf8.ValidRune, utf8.surrogateMin, utf8.surrogateMax, utf8.MaxRune.
  rewrite orb_true_iff, !andb_true_iff, !Z.leb_le, !Z.ltb_lt. tauto.
Qed.

Lemma EncodeRune_cases (r : rune) :
  utf8.ValidRune r = true ->
  (0 <= r <= 127 /\ utf8.EncodeRune r = [r]) \/
  (128 <= r <= 2047 /\ utf8.EncodeRune r = [192 + r / 64; 128 + r mod 64]) \/
  (2048 <= r <= 65535 /\ (r < 55296 \/ 57343 < r) /\
   utf8.EncodeRune r = [224 + r / 4096; 128 + r / 64 mod 64; 128 + r mod 64]) \/
  (65536 <= r <= 1114111 /\
   utf8.EncodeRune r
     = [240 + r / 262144; 128 + r / 4096 mod 64; 128 + r / 64 mod 64; 128 + r mod 64]).
Proof.
  intros Hvalid. unfold utf8.EncodeRune. rewrite Hvalid. simpl negb. cbv iota.
  apply ValidRune_spec in Hvalid.
  repeat cmp.
  - left. split; [lia|done].
  - right; left. split; [lia|done].
  - right; right; left. split; [lia|]. split; [lia|done].
  - right; right; right. split; [lia|done].
Qed.

Lemma DecodeRune_EncodeRune (r : rune) (rest : list byte) :
  utf8.ValidRune r = true ->
  utf8.DecodeRune (utf8.EncodeRune r ++ rest) = (r, length (utf8.EncodeRune r)).
Proof.
  intros Hvalid.
  destruct (EncodeRune_cases r Hvalid)
    as [[Hr ->]|[[Hr ->]|[(Hr & Hs & ->)|[Hr ->]]]]; simpl app; simpl length;
    unfold utf8.DecodeRune, utf8.continuation, utf8.accept_lo, utf8.accept_hi;
    repeat cmp; f_equal; divmod.
Qed.

Lemma EncodeRune_nonempty (r : rune) : utf8.EncodeRune r <> [].
Proof. unfold utf8.EncodeRune. by repeat case_match. Qed.

Lemma DecodeRune_ValidRune (s : list byte) : utf8.ValidRune (utf8.DecodeRune s).1 = true.
Proof.
  unfold utf8.DecodeRune, utf8.continuation, utf8.accept_lo, utf8.accept_hi.
  destruct s as [|b0 [|b1 [|b2 [|b3 s]]]]; repeat cmp; cbn [fst];
    try reflexivity; apply ValidRune_spec; lia.
Qed.

Lemma DecodeRune_width (b0 : byte) (s : list byte) :
  (1 <= (utf8.DecodeRune (b0 :: s)).2)%nat.
Proof.
  unfold utf8.DecodeRune.
  destruct s as [|b1 [|b2 [|b3 s]]]; repeat case_match; simpl; lia.
Qed.

Lemma EncodeRune_DecodeRune (s : list byte) :
  s <> [] ->
  utf8.DecodeRune s <> (utf8.RuneError, 1%nat) ->
  utf8.EncodeRune (utf8.DecodeRune s).1 = take (utf8.DecodeRune s).2 s.
Proof.
  intros Hne. destruct s as [|b0 s]; [done|]. clear Hne.
  unfold utf8.DecodeRune, utf8.continuation, utf8.accept_lo, utf8.accept_hi.
  destruct s as [|b1 [|b2 [|b3 s]]]; repeat cmp; cbn [fst snd]; intros Herr;
    try (by destruct Herr);
    unfold utf8.EncodeRune, utf8.ValidRune, utf8.surrogateMin, utf8.surrogateMax,
      utf8.MaxRune;
    repeat cmp; cbn [take]; repeat f_equal; divmod.
Qed.

Lemma decode_from_drop (k : nat) (s : list byte) :
  utf8.decode_from k s = utf8.decode (drop k s).
Proof.
  revert k. induction s as [|b s IH]; intros k.
  - by rewrite drop_nil.
  - destruct k as [|k]; [done|]. simpl. by rewrite IH.
Qed.

(** One step of [range]: the rune at the front, then the rest. *)
Lemma decode_cons (b : byte) (s : list byte) :
  utf8.decode (b :: s)
    = utf8.DecodeRune (b :: s)
        :: utf8.decode (drop (utf8.DecodeRune (b :: s)).2 (b :: s)).
Proof.
  unfold utf8.decode at 1. cbn [utf8.decode_from]. f_equal.
  rewrite decode_from_drop.
  pose proof (DecodeRune_width b s) as Hw.
  destruct (utf8.DecodeRune (b :: s)).2 as [|w]; [lia|]. done.
Qed.

Lemma runes_ValidRune (s : list byte) :
  Forall (fun r => utf8.ValidRune r = true) (utf8.runes s).
Proof.
  unfold utf8.runes, utf8.decode. generalize 0%nat as k.
  induction s as [|b s IH]; intros k; [constructor|].
  destruct k as [|k]; cbn [utf8.decode_from fmap list_fmap]; [|apply IH].
  constructor; [apply (DecodeRune_ValidRune (b :: s))|apply IH].
Qed.

Lemma bytes_app (rs1 rs2 : gostring) :
  utf8.bytes (rs1 ++ rs2) = utf8.bytes rs1 ++ utf8.bytes rs2.
Proof. apply bind_app. Qed.

Lemma bytes_cons (r : rune) (rs : gostring) :
  utf8.bytes (r :: rs) = utf8.EncodeRune r ++ utf8.bytes rs.
Proof. reflexivity. Qed.

(** Decoding what was encoded from scalar values gives them back. *)
Lemma runes_bytes (rs : gostring) :
  Forall (fun r => utf8.ValidRune r = true) rs -> utf8.runes (utf8.bytes rs) = rs.
Proof.
  induction 1 as [|r rs Hr _ IH]; [done|].
  rewrite bytes_cons. unfold utf8.runes in *.
  pose proof (EncodeRune_nonempty r) as Hne.
  pose proof (DecodeRune_EncodeRune r (utf8.bytes rs) Hr) as Hdec.
  destruct (utf8.EncodeRune r) as [|b enc] eqn:Henc; [done|].
  rewrite <- app_comm_cons, decode_cons, app_comm_cons, Hdec.
  cbn [snd fmap list_fmap fst]. by rewrite drop_app_length, IH.
Qed.

(** Encoding what was decoded from a valid string gives it back. *)
Lemma bytes_runes (s : list byte) :
  utf8.ValidString s = true -> utf8.bytes (utf8.runes s) = s.
Proof.
  remember (length s) as n eqn:Hn. revert s Hn.
  induction n as [n IH] using lt_wf_ind. intros s Hn Hvalid.
  destruct s as [|b s]; [done|].
  unfold utf8.ValidString, utf8.runes in *. rewrite decode_cons in *.
  cbn [forallb fmap list_fmap] in *.
  apply andb_true_iff in Hvalid as [Hstep Hrest].
  pose proof (DecodeRune_width b s) as Hw.
  rewrite bytes_cons, EncodeRune_DecodeRune; [|done|].
  - rewrite (IH (length (drop (utf8.DecodeRune (b :: s)).2 (b :: s)))); try done.
    + apply take_drop.
    + subst n. rewrite length_drop. simpl in *. lia.
  - intros Herr. rewrite Herr in Hstep. by vm_compute in Hstep.
Qed.

End Utf8Facts.

(** ** [Quote] *)

Section QuoteFacts.

Lemma escaped_cons (r : rune) (s : gostring) :
  scanning.escaped (r :: s)
    = (if r =? db.quote then [db.escape; r] else [r]) ++ scanning.escaped s.
Proof. reflexivity. Qed.

Lemma Quote_loop_escaped (out s : gostring) :
  db.Quote_loop out s = out ++ scanning.escaped s.
Proof.
  revert out. induction s as [|r s IH]; intros out.
  - simpl. by rewrite app_nil_r.
  - rewrite escaped_cons. simpl. destruct (r =? db.quote); rewrite IH, <- app_assoc; done.
Qed.

Lemma Quote_escaped (s : gostring) :
  db.Quote s = db.quote :: scanning.escaped s ++ [db.quote].
Proof. unfold db.Quote. by rewrite Quote_loop_escaped. Qed.

(** After a backslash that stands for itself no escaped quote can
    follow: what follows a quote's backslash is the quote. *)
Lemma escaped_not_quote_first (s : gostring) (rest : gostring) :
  scanning.escaped s <> db.quote :: rest.
Proof.
  destruct s as [|r s]; [done|]. rewrite escaped_cons.
  destruct (Z.eqb_spec r db.quote) as [->|Hr]; simpl.
  - intros Heq. injection Heq as Hq _. by vm_compute in Hq.
  - intros Heq. injection Heq as Hq _. congruence.
Qed.

Lemma escaped_injective (s1 s2 : gostring) :
  scanning.escaped s1 = scanning.escaped s2 -> s1 = s2.
Proof.
  revert s2. induction s1 as [|r1 s1 IH]; intros s2.
  - destruct s2 as [|r2 s2]; [done|]. rewrite escaped_cons.
    by destruct (r2 =? db.quote).
  - destruct s2 as [|r2 s2].
    + rewrite escaped_cons. by destruct (r1 =? db.quote).
    + rewrite !escaped_cons.
      destruct (Z.eqb_spec r1 db.quote) as [->|H1],
               (Z.eqb_spec r2 db.quote) as [->|H2]; simpl.
      * intros [= Hb]. f_equal. by apply IH.
      * intros [= <- Hb]. symmetry in Hb. by apply escaped_not_quote_first in Hb.
      * intros [= -> Hb]. by apply escaped_not_quote_first in Hb.
      * intros [= -> Hb]. f_equal. by apply IH.
Qed.

(** On the runes, [Quote] loses nothing. *)
Lemma Quote_runes_injective (s1 s2 : gostring) :
  db.Quote s1 = db.Quote s2 -> s1 = s2.
Proof.
  rewrite !Quote_escaped. intros [= Hb]. apply app_inv_tail in Hb.
  by apply escaped_injective.
Qed.

Lemma escaped_ValidRune (rs : gostring) :
  Forall (fun r => utf8.ValidRune r = true) rs ->
  Forall (fun r => utf8.ValidRune r = true) (scanning.escaped rs).
Proof.
  induction 1 as [|r rs Hr _ IH]; [constructor|]. rewrite escaped_cons.
  destruct (Z.eqb_spec r db.quote) as [->|_]; simpl; repeat constructor; done.
Qed.

Lemma Quote_ValidRune (rs : gostring) :
  Forall (fun r => utf8.ValidRune r = true) rs ->
  Forall (fun r => utf8.ValidRune r = true) (db.Quote rs).
Proof.
  intros Hrs. rewrite Quote_escaped. constructor; [done|].
  apply Forall_app. split; [by apply escaped_ValidRune|by repeat constructor].
Qed.

Lemma Quote_bytes_escaped (s : list byte) :
  db.Quote_bytes s
    = db.quote :: utf8.bytes (scanning.escaped (utf8.runes s)) ++ [db.quote].
Proof.
  unfold db.Quote_bytes. by rewrite Quote_escaped, bytes_cons, bytes_app.
Qed.

(** A quote inside costs one byte more; nothing else changes length. *)
Lemma bytes_escaped_length (rs : gostring) :
  length (utf8.bytes (scanning.escaped rs))
    = (length (utf8.bytes rs) + length (filter (fun r => r = db.quote) rs))%nat.
Proof.
  induction rs as [|r rs IH]; [done|].
  rewrite escaped_cons, bytes_app, bytes_cons, !length_app, IH, filter_cons.
  destruct (Z.eqb_spec r db.quote) as [->|Hr].
  - rewrite decide_True by done. simpl. lia.
  - rewrite decide_False by done. rewrite bytes_cons, length_app. simpl. lia.
Qed.

(** The byte of the quote occurs in an encoding only as the quote. *)
Lemma filter_quote_EncodeRune (r : rune) :
  utf8.ValidRune r = true ->
  filter (fun b => b = db.quote) (utf8.EncodeRune r) = filter (fun b => b = db.quote) [r].
Proof.
  intros Hvalid. unfold db.quote.
  destruct (EncodeRune_cases r Hvalid)
    as [[Hr ->]|[[Hr ->]|[(Hr & Hs & ->)|[Hr ->]]]]; [done| | |];
    rewrite !filter_cons, !filter_nil; repeat case_decide; try done; exfalso; divmod.
Qed.

Lemma filter_quote_bytes (rs : gostring) :
  Forall (fun r => utf8.ValidRune r = true) rs ->
  length (filter (fun b => b = db.quote) (utf8.bytes rs))
    = length (filter (fun r => r = db.quote) rs).
Proof.
  induction 1 as [|r rs Hr _ IH]; [done|].
  rewrite bytes_cons, filter_app, length_app, IH, filter_quote_EncodeRune by done.
  rewrite (filter_cons _ r rs), filter_cons, filter_nil.
  by case_decide.
Qed.

Lemma escaped_without_quote (rs : gostring) :
  db.quote ∉ rs -> scanning.escaped rs = rs.
Proof.
  induction rs as [|r rs IH]; [done|]. intros Hnot.
  apply not_elem_of_cons in Hnot as [Hr Hnot]. rewrite escaped_cons.
  destruct (Z.eqb_spec r db.quote) as [->|_]; [done|]. simpl. f_equal. by apply IH.
Qed.

Lemma quote_in_bytes (rs : gostring) :
  db.quote ∈ rs -> db.quote ∈ utf8.bytes rs.
Proof.
  intros Hin. unfold utf8.bytes. apply list_elem_of_bind.
  exists db.quote. split; [|done]. vm_compute. apply elem_of_cons. by left.
Qed.

(** X1: two strings have the same quoted form exactly when [range] reads
    the same runes from them. So [Quote] loses nothing on valid UTF-8:
    two valid strings with the same quoted form are the same string.
    It does lose the bytes that are not well formed, each of which comes
    out as U+FFFD: the one-byte strings 0xFF and 0xFE have the same
    quoted form. *)
Theorem Quote_bytes_injective_on_valid_strings (s1 s2 : list byte) :
  (db.Quote_bytes s1 = db.Quote_bytes s2 <-> utf8.runes s1 = utf8.runes s2) /\
  (utf8.ValidString s1 = true -> utf8.ValidString s2 = true ->
   db.Quote_bytes s1 = db.Quote_bytes s2 -> s1 = s2) /\
  db.Quote_bytes [255] = db.Quote_bytes [254].
Proof.
  assert (db.Quote_bytes s1 = db.Quote_bytes s2 -> utf8.runes s1 = utf8.runes s2)
    as Hrunes.
  { unfold db.Quote_bytes. intros Heq. apply (f_equal utf8.runes) in Heq.
    rewrite !runes_bytes in Heq by (apply Quote_ValidRune, runes_ValidRune).
    by apply Quote_runes_injective. }
  split; [split; [exact Hrunes|]|split].
  - unfold db.Quote_bytes. by intros ->.
  - intros Hv1 Hv2 Heq. apply Hrunes in Heq.
    by rewrite <- (bytes_runes s1), <- (bytes_runes s2), Heq.
  - reflexivity.
Qed.

(** X2: the quoted form starts and ends with the byte of the quote, and
    between them holds the re-encoded runes of the string with one
    backslash more for every quote among them. For a string that is
    valid UTF-8 it is therefore longer than the string by two bytes plus
    one for every quote inside it, and is the string itself between two
    quotes when the string holds no quote: a backslash is not escaped.
    A string that is not valid may grow more: the one byte 0xFF comes
    out as five bytes. *)
Theorem Quote_bytes_shape (s : list byte) :
  head (db.Quote_bytes s) = Some db.quote /\
  last (db.Quote_bytes s) = Some db.quote /\
  length (db.Quote_bytes s)
    = (length (utf8.bytes (utf8.runes s)) + 2
       + length (filter (fun r => r = db.quote) (utf8.runes s)))%nat /\
  (utf8.ValidString s = true ->
   length (db.Quote_bytes s)
     = (length s + 2 + length (filter (fun b => b = db.quote) s))%nat /\
   (db.quote ∉ s -> db.Quote_bytes s = db.quote :: s ++ [db.quote])) /\
  db.Quote_bytes [255] = [39; 239; 191; 189; 39].
Proof.
  rewrite Quote_bytes_escaped. split; [done|]. split.
  { by rewrite app_comm_cons, last_snoc. }
  assert (length (db.quote :: utf8.bytes (scanning.escaped (utf8.runes s)) ++ [db.quote])
          = (length (utf8.bytes (utf8.runes s)) + 2
             + length (filter (fun r => r = db.quote) (utf8.runes s)))%nat) as Hlen.
  { rewrite length_cons, length_app, bytes_escaped_length. simpl. lia. }
  split; [exact Hlen|]. split; [|reflexivity].
  intros Hvalid. pose proof (bytes_runes s Hvalid) as Hs. split.
  - rewrite Hlen.
    rewrite <- (filter_quote_bytes (utf8.runes s)) by apply runes_ValidRune.
    by rewrite Hs.
  - intros Hnot. rewrite escaped_without_quote, Hs; [done|].
    intros Hin. apply Hnot. rewrite <- Hs. by apply quote_in_bytes.
Qed.

End QuoteFacts.

(** ** [Contains] *)

Lemma HasPrefix_spec (s prefix : gostring) :
  strings.HasPrefix s prefix = true <-> exists l2, s = prefix ++ l2.
Proof.
  revert s. induction prefix as [|p prefix IH]; intros [|c s]; simpl.
  - split; [by exists []|done].
  - split; [by exists (c :: s)|done].
  - split; [done|]. by intros [l2 Hl2].
  - rewrite andb_true_iff, IH, Z.eqb_eq. split.
    + intros [-> [l2 ->]]. by exists l2.
    + intros [l2 Hl2]. injection Hl2 as -> ->. eauto.
Qed.

Lemma strings_Contains_spec (s substr : gostring) :
  strings.Contains s substr = true <-> exists l1 l2, s = l1 ++ substr ++ l2.
Proof.
  induction s as [|c s IH]; cbn [strings.Contains];
    rewrite orb_true_iff, HasPrefix_spec.
  - split.
    + intros [[l2 Hl2]|?]; [|done]. by exists [], l2.
    + intros (l1 & l2 & Hl). left. destruct l1; [|done]. by exists l2.
  - rewrite IH. split.
    + intros [[l2 Hl2]|(l1 & l2 & Hl)].
      * by exists [], l2.
      * exists (c :: l1), l2. by rewrite Hl.
    + intros (l1 & l2 & Hl). destruct l1 as [|c' l1].
      * left. by exists l2.
      * right. injection Hl as -> ->. by exists l1, l2.
Qed.

(** X3: [Contains(s, ss...)] is true exactly when one of the strings of
    [ss] occurs in [s] as a contiguous run; with no candidates it is
    false. *)
Theorem Contains_iff_some_substring (s : gostring) (ss : list gostring) :
  db.Contains s ss = true <->
  exists of_ l1 l2, of_ ∈ ss /\ s = l1 ++ of_ ++ l2.
Proof.
  induction ss as [|of_ ss IH]; simpl.
  - split; [done|]. intros (x & _ & _ & Hin & _). by apply elem_of_nil in Hin.
  - destruct (strings.Contains s of_) eqn:Hc.
    + split; [|done]. intros _. apply strings_Contains_spec in Hc as (l1 & l2 & ->).
      exists of_, l1, l2. split; [apply elem_of_cons; by left|done].
    + rewrite IH. split.
      * intros (x & l1 & l2 & Hin & ->). exists x, l1, l2.
        split; [apply elem_of_cons; by right|done].
      * intros (x & l1 & l2 & Hin & ->). apply elem_of_cons in Hin as [->|Hin].
        -- assert (strings.Contains (l1 ++ of_ ++ l2) of_ = true) as Ht
             by (apply strings_Contains_spec; eauto).
           congruence.
        -- by exists x, l1, l2.
Qed.

(** ** The row [AddRow] builds *)

Lemma fill_row_lookup (header : list gostring) (i : nat) (columns : list any)
    (row0 row : gmap gostring any) :
  db.fill_row header i columns row0 = Some row ->
  forall h : gostring,
    (h ∉ header -> row !! h = row0 !! h) /\
    (forall k, header !! k = Some h ->
               (forall k', (k < k')%nat -> header !! k' <> Some h) ->
               row !! h = columns !! (i + k)%nat).
Proof.
  revert i row0. induction header as [|h0 header IH]; intros i row0; simpl.
  - intros [= <-] h. split; [done|]. intros k Hk. done.
  - destruct (columns !! i) as [c|] eqn:Hc; [|done].
    intros Hfill h. destruct (IH _ _ Hfill h) as [IHout IHin]. split.
    + intros Hnot. apply not_elem_of_cons in Hnot as [Hne Hnot].
      rewrite IHout by done. by rewrite lookup_insert_ne.
    + intros [|k] Hk Hlast; simpl in Hk.
      * injection Hk as ->. rewrite Nat.add_0_r, Hc.
        rewrite IHout; [by rewrite lookup_insert_eq|].
        intros Hin. apply list_elem_of_lookup in Hin as [k' Hk'].
        by apply (Hlast (S k')); [lia|].
      * replace (i + S k)%nat with (S i + k)%nat by lia.
        apply IHin; [done|]. intros k' Hlt. apply (Hlast (S k')). lia.
Qed.

Lemma fill_row_short (header : list gostring) (i : nat) (columns : list any)
    (row0 : gmap gostring any) :
  (i <= length columns < i + length header)%nat ->
  db.fill_row header i columns row0 = None.
Proof.
  revert i row0. induction header as [|h0 header IH]; intros i row0 Hlen; simpl in *.
  - lia.
  - destruct (columns !! i) as [c|] eqn:Hc; [|done].
    pose proof (lookup_lt_Some _ _ _ Hc). apply IH. lia.
Qed.

(** X4: when [AddRow] appends, the new row has exactly the header names
    as keys, and under each name the cell of the last column that bears
    it (columns with the same name collapse into one key); [AddRow]
    panics exactly when it gets past its two tests with fewer cells than
    header names. *)
Theorem AddRow_row_last_column_wins (j : db.JsonRowsScanner) (i : Z) (columns : list any) :
  (db.AddRow j i columns = None ->
   (length columns < length (db.Header j))%nat) /\
  (forall j' more,
     db.AddRow j i columns = Some (j', more) ->
     db.j_Rows j' = db.j_Rows j \/
     exists row : gmap gostring any,
       db.j_Rows j' = db.j_Rows j ++ [row] /\
       (forall h, row !! h = None <-> h ∉ db.Header j) /\
       (forall k h,
          db.Header j !! k = Some h ->
          (forall k', (k < k')%nat -> db.Header j !! k' <> Some h) ->
          row !! h = columns !! k)).
Proof.
  unfold db.AddRow. split.
  - destruct (_ && _); [done|]. destruct (_ <? _); [done|].
    destruct (db.fill_row _ _ _ _) eqn:Hfill; [done|]. intros _.
    destruct (decide (length columns < length (db.Header j))%nat) as [|Hge]; [done|].
    destruct (fill_row_fits (db.Header j) 0 columns ∅) as [row Hrow]; [lia|].
    congruence.
  - intros j' more.
    destruct (_ && _); [intros [= <- _]; by left|].
    destruct (_ <? _); [intros [= <- _]; by left|].
    destruct (db.fill_row _ _ _ _) as [row|] eqn:Hfill; [|done].
    intros [= <- _]. right. exists row. split; [done|].
    pose proof (fill_row_lookup _ _ _ _ _ Hfill) as Hrow. split.
    + intros h. split.
      * intros Hnone Hin.
        assert (exists k, db.Header j !! k = Some h /\
                  forall k', (k < k')%nat -> db.Header j !! k' <> Some h)
          as (k & Hk & Hlast).
        { clear -Hin. induction (db.Header j) as [|h0 hs IH].
          - by apply elem_of_nil in Hin.
          - destruct (decide (h ∈ hs)) as [Hhs|Hhs].
            + destruct (IH Hhs) as (k & Hk & Hlast). exists (S k). split; [done|].
              intros [|k'] Hlt; [lia|]. apply Hlast. lia.
            + apply elem_of_cons in Hin as [->|Hin]; [|done].
              exists 0%nat. split; [done|]. intros [|k'] Hlt; [lia|]. simpl.
              intros Hk'. apply Hhs. by eapply list_elem_of_lookup_2. }
        destruct (Hrow h) as [_ Hin']. rewrite (Hin' k Hk Hlast) in Hnone.
        apply lookup_ge_None in Hnone. simpl in Hnone.
        assert (is_Some (db.fill_row (db.Header j) 0 columns ∅)) as Hsome by eauto.
        apply lookup_lt_Some in Hk.
        destruct (decide (length columns < length (db.Header j))%nat) as [Hshort|Hok].
        -- rewrite fill_row_short in Hfill by lia. done.
        -- lia.
      * intros Hnot. destruct (Hrow h) as [Hout _]. by rewrite Hout.
    + intros k h Hk Hlast. destruct (Hrow h) as [_ Hin]. by apply Hin.
Qed.

(** A header with a repeated name and three cells: the row has two
    keys, and the repeated name shows the last cell. *)
Lemma AddRow_row_last_column_wins_witness :
  exists j' more row,
    db.AddRow (db.StartRows (db.NewJsonRowsScanner 0 30) [lit "id"; lit "v"; lit "id"]) 0
      [VInt KInt64 1; VInt KInt64 2; VInt KInt64 3] = Some (j', more) /\
    db.j_Rows j' = [row] /\
    row !! lit "id" = Some (VInt KInt64 3) /\
    row !! lit "v" = Some (VInt KInt64 2).
Proof.
  destruct (db.AddRow (db.StartRows (db.NewJsonRowsScanner 0 30)
                         [lit "id"; lit "v"; lit "id"]) 0
              [VInt KInt64 1; VInt KInt64 2; VInt KInt64 3])
    as [[j' more]|] eqn:Hadd; [|vm_compute in Hadd; discriminate Hadd].
  destruct (proj2 (AddRow_row_last_column_wins _ _ _) j' more Hadd)
    as [Hsame|(row & Hrows & _ & Hcells)].
  - exfalso. vm_compute in Hadd. injection Hadd as <- _. vm_compute in Hsame.
    discriminate Hsame.
  - exists j', more, row. split; [done|]. split; [exact Hrows|]. split.
    + rewrite (Hcells 2%nat (lit "id")); [done|done|].
      intros [|[|[|k']]] Hlt; try lia; done.
    + rewrite (Hcells 1%nat (lit "v")); [done|done|].
      intros [|[|[|k']]] Hlt; try lia; done.
Defined.



(** ** [JsonRowsScanner.Scan] as a page of the result *)

Section PageFacts.
Context `{CaseTables} `{Libs}.

(** What [RowScanner.Scan] returns for a delivered row depends on the
    kinds and on the number of columns only, not on the rows before or
    after. *)
Lemma Scan_on_row (s1 s2 : db.RowScanner) (r : list any) (rest1 rest2 : list (list any)) :
  db.Types s1 = db.Types s2 ->
  sql.ncols (db.rs_Rows s1) = sql.ncols (db.rs_Rows s2) ->
  db.RowScanner_Scan (scanning.on_row s1 r rest1)
    = db.RowScanner_Scan (scanning.on_row s2 r rest2).
Proof.
  intros Ht Hn. unfold db.RowScanner_Scan, db.Rows_Scan. simpl. by rewrite Ht, Hn.
Qed.

(** The loop over a run of rows that all scan, none of them past the end
    of the page: it goes on with the rows after the run, having appended
    those of the run that lie at or after the offset. *)
Lemma scan_loop_prefix (scan0 : db.RowScanner) (o l : nat) (good : list (list any)) :
  Z.of_nat (o + l) < maxInt ->
  forall (maps : list (gmap gostring any)) (tail : list (list any))
         (scan : db.RowScanner) (j : db.JsonRowsScanner) (n : nat),
    db.Types scan = db.Types scan0 ->
    sql.ncols (db.rs_Rows scan) = sql.ncols (db.rs_Rows scan0) ->
    Forall2 (scanning.gives scan0 (db.Header j)) good maps ->
    db.Offset j = Z.of_nat o -> db.Limit j = Z.of_nat l ->
    (n + length good <= o + l)%nat ->
    exists (scan' : db.RowScanner) (j' : db.JsonRowsScanner),
      db.scan_loop (good ++ tail) scan j (Z.of_nat n)
        = db.scan_loop tail scan' j' (Z.of_nat (n + length good)) /\
      db.Types scan' = db.Types scan0 /\
      sql.ncols (db.rs_Rows scan') = sql.ncols (db.rs_Rows scan0) /\
      sql.eof_err (db.rs_Rows scan') = sql.eof_err (db.rs_Rows scan) /\
      db.Header j' = db.Header j /\ db.Offset j' = db.Offset j /\
      db.Limit j' = db.Limit j /\
      db.j_Rows j' = db.j_Rows j ++ take (o + l - max n o) (drop (o - n) maps).
Proof.
  intros Hmax. induction good as [|r good IH];
    intros maps tail scan j n Ht Hn Hgives Hoff Hlim Hlen.
  - apply Forall2_nil_inv_l in Hgives as ->. exists scan, j.
    rewrite Nat.add_0_r, drop_nil, take_nil, app_nil_r. by repeat split.
  - apply Forall2_cons_inv_l in Hgives as (m & maps' & (cells & Hcells & Hfill) & Hrest & ->).
    simpl in Hlen. cbn [app db.scan_loop].
    change {| db.rs_Rows := sql.advance (db.rs_Rows scan) r (good ++ tail);
              db.Types := db.Types scan; db.LowerColumns := db.LowerColumns scan;
              db.Columns := db.Columns scan |}
      with (scanning.on_row scan r (good ++ tail)).
    rewrite (Scan_on_row scan scan0 r (good ++ tail) []) by done. rewrite Hcells.
    assert (int_add (Z.of_nat n) 1 = Z.of_nat (S n)) as Hnext.
    { rewrite int_add_small by (unfold minInt, maxInt in *; lia). lia. }
    destruct (decide (n < o)%nat) as [Hskip|Hin].
    + assert (db.AddRow j (Z.of_nat n) cells = Some (j, true)) as ->.
      { unfold db.AddRow. rewrite Hoff.
        destruct (Z.ltb_spec 0 (Z.of_nat o)); [|lia].
        destruct (Z.ltb_spec (Z.of_nat n) (Z.of_nat o)); [done|lia]. }
      rewrite Hnext.
      destruct (IH maps' tail (scanning.on_row scan r (good ++ tail)) j (S n))
        as (scan' & j' & Hloop & Ht' & Hn' & He' & Hh & Ho & Hl & Hrows);
        try done; [lia|].
      exists scan', j'. rewrite Hloop.
      replace (S n + length good)%nat with (n + S (length good))%nat by lia.
      repeat split; try done. rewrite Hrows. do 2 f_equal; [lia|].
      replace (o - n)%nat with (S (o - S n)) by lia. done.
    + set (j1 := {| db.start := db.start j; db.Header := db.Header j;
                    db.Limit := db.Limit j; db.Offset := db.Offset j;
                    db.j_Rows := db.j_Rows j ++ [m] |}).
      assert (db.AddRow j (Z.of_nat n) cells = Some (j1, true)) as ->.
      { unfold j1, db.AddRow. rewrite Hoff, Hlim, Hfill.
        rewrite !int_add_small by (unfold minInt, maxInt in *; lia).
        destruct (Z.ltb_spec (Z.of_nat n) (Z.of_nat o)); [lia|].
        rewrite andb_false_r.
        destruct (Z.ltb_spec (Z.of_nat l + Z.of_nat o) (Z.of_nat n + 1)); [lia|].
        destruct (Z.leb_spec (Z.of_nat n + 1) (Z.of_nat l + Z.of_nat o)); [|lia].
        by rewrite orb_true_r. }
      rewrite Hnext.
      destruct (IH maps' tail (scanning.on_row scan r (good ++ tail)) j1 (S n))
        as (scan' & j' & Hloop & Ht' & Hn' & He' & Hh & Ho & Hl & Hrows);
        try done; [lia|].
      exists scan', j'. rewrite Hloop.
      replace (S n + length good)%nat with (n + S (length good))%nat by lia.
      repeat split; try done. rewrite Hrows. simpl. rewrite <- app_assoc. f_equal.
      replace (o - n)%nat with 0%nat by lia.
      replace (o + l - max n o)%nat with (S (o + l - max (S n) o)) by lia.
      replace (o - S n)%nat with 0%nat by lia. done.
Qed.

Lemma NewRowScanner_Ok (rows : sql.Rows) (scan : db.RowScanner) :
  db.NewRowScanner rows = Ok scan ->
  db.rs_Rows scan = rows /\ sql.Columns rows = Ok (db.Columns scan) /\
  sql.ncols rows = length (db.Columns scan).
Proof.
  unfold db.NewRowScanner, sql.Columns, sql.ColumnTypes, sql.ncols.
  destruct (sql.columns rows) as [cs|]; [|done].
  destruct (sql.columnTypes rows) as [cts|]; [|done].
  by intros [= <-].
Qed.

(** The rows end within the page: the loop reads them all and returns
    the error that ended the iteration. *)
Lemma Scan_page_to_the_end (j : db.JsonRowsScanner) (rows : sql.Rows)
    (scan : db.RowScanner) (maps : list (gmap gostring any)) :
  db.NewRowScanner rows = Ok scan ->
  0 <= db.Offset j -> 0 <= db.Limit j -> db.Offset j + db.Limit j < maxInt ->
  Forall2 (scanning.gives scan (db.Columns scan)) (sql.pending rows) maps ->
  Z.of_nat (length (sql.pending rows)) <= db.Offset j + db.Limit j ->
  exists (j' : db.JsonRowsScanner) (rows' : sql.Rows),
    db.JsonRowsScanner_Scan j rows = Some (j', rows', sql.eof_err rows) /\
    db.Header j' = db.Columns scan /\
    db.j_Rows j'
      = db.j_Rows j ++ take (Z.to_nat (db.Limit j)) (drop (Z.to_nat (db.Offset j)) maps).
Proof.
  intros Hnew Hoff Hlim Hsum Hgives Hcount.
  destruct (NewRowScanner_Ok rows scan Hnew) as (Hrows & Hcols & Hncols).
  unfold db.JsonRowsScanner_Scan. rewrite Hnew, Hcols.
  set (o := Z.to_nat (db.Offset j)). set (l := Z.to_nat (db.Limit j)).
  set (j0 := db.StartRows j (db.Columns scan)).
  assert (Z.of_nat (o + l) < maxInt) as Hmax by lia.
  assert (db.Offset j0 = Z.of_nat o) as Ho0 by (simpl; lia).
  assert (db.Limit j0 = Z.of_nat l) as Hl0 by (simpl; lia).
  destruct (scan_loop_prefix scan o l (sql.pending rows) Hmax maps [] scan j0 0%nat)
    as (scan' & j' & Hloop & _ & _ & He & Hh & _ & _ & Hj'); try done; [lia|].
  rewrite app_nil_r in Hloop. change (Z.of_nat 0) with 0 in Hloop.
  rewrite Hloop. simpl. eexists _, _. split.
  { unfold sql.Err_. simpl. by rewrite He, Hrows. }
  split; [done|]. rewrite Hj'. simpl. do 2 f_equal; [lia|]. f_equal. lia.
Qed.

(** The rows go on past the page: the loop stops at the first row after
    it and returns nil. *)
Lemma Scan_page_stops_early (j : db.JsonRowsScanner) (rows : sql.Rows)
    (scan : db.RowScanner) (maps : list (gmap gostring any)) :
  db.NewRowScanner rows = Ok scan ->
  0 <= db.Offset j -> 0 <= db.Limit j -> db.Offset j + db.Limit j < maxInt ->
  Forall2 (scanning.gives scan (db.Columns scan)) (sql.pending rows) maps ->
  db.Offset j + db.Limit j < Z.of_nat (length (sql.pending rows)) ->
  exists (j' : db.JsonRowsScanner) (rows' : sql.Rows),
    db.JsonRowsScanner_Scan j rows = Some (j', rows', None) /\
    db.Header j' = db.Columns scan /\
    db.j_Rows j'
      = db.j_Rows j ++ take (Z.to_nat (db.Limit j)) (drop (Z.to_nat (db.Offset j)) maps).
Proof.
  intros Hnew Hoff Hlim Hsum Hgives Hcount.
  destruct (NewRowScanner_Ok rows scan Hnew) as (Hrows & Hcols & Hncols).
  unfold db.JsonRowsScanner_Scan. rewrite Hnew, Hcols.
  set (o := Z.to_nat (db.Offset j)). set (l := Z.to_nat (db.Limit j)).
  set (j0 := db.StartRows j (db.Columns scan)).
  assert (Z.of_nat (o + l) < maxInt) as Hmax by lia.
  assert (db.Offset j0 = Z.of_nat o) as Ho0 by (simpl; lia).
  assert (db.Limit j0 = Z.of_nat l) as Hl0 by (simpl; lia).
  assert (exists r rest, sql.pending rows = take (o + l) (sql.pending rows) ++ r :: rest)
    as (r & rest & Hsplit).
  { destruct (drop (o + l) (sql.pending rows)) as [|r rest] eqn:Hdrop.
    - apply (f_equal length) in Hdrop. rewrite length_drop in Hdrop. simpl in Hdrop. lia.
    - exists r, rest. by rewrite <- Hdrop, take_drop. }
  assert (scanning.gives scan (db.Columns scan) r
            (default ∅ (maps !! (o + l)%nat))) as (cells & Hcells & _).
  { assert (sql.pending rows !! (o + l)%nat = Some r) as Hr.
    { rewrite Hsplit, lookup_app_r by (rewrite length_take; lia).
      rewrite length_take. replace (_ - _)%nat with 0%nat by lia. done. }
    destruct (Forall2_lookup_l _ _ _ _ _ Hgives Hr) as (m & -> & Hm). done. }
  assert (length (take (o + l) (sql.pending rows)) = (o + l)%nat) as Hlgood
    by (rewrite length_take; lia).
  destruct (scan_loop_prefix scan o l (take (o + l) (sql.pending rows)) Hmax
              (take (o + l) maps) (r :: rest) scan j0 0%nat)
    as (scan' & j' & Hloop & Ht & Hn & _ & Hh & Ho & Hl & Hj'); try done.
  { by apply Forall2_take. }
  { lia. }
  rewrite <- Hsplit in Hloop. change (Z.of_nat 0) with 0 in Hloop. rewrite Hloop.
  rewrite Hlgood. cbn [Nat.add db.scan_loop].
  change {| db.rs_Rows := sql.advance (db.rs_Rows scan') r rest;
            db.Types := db.Types scan'; db.LowerColumns := db.LowerColumns scan';
            db.Columns := db.Columns scan' |}
    with (scanning.on_row scan' r rest).
  rewrite (Scan_on_row scan' scan r rest []) by done. rewrite Hcells.
  assert (db.AddRow j' (Z.of_nat (o + l)) cells = Some (j', false)) as ->.
  { unfold db.AddRow. rewrite Ho, Hl, Ho0, Hl0.
    rewrite !int_add_small by (unfold minInt, maxInt in *; lia).
    destruct (Z.ltb_spec (Z.of_nat (o + l)) (Z.of_nat o)); [lia|].
    rewrite andb_false_r.
    destruct (Z.ltb_spec (Z.of_nat l + Z.of_nat o) (Z.of_nat (o + l) + 1)); [done|lia]. }
  eexists _, _. split; [done|]. split; [done|].
  rewrite Hj'. simpl. f_equal.
  replace (o + l - max 0 o)%nat with l by lia. rewrite Nat.sub_0_r.
  rewrite <- take_drop_commute, take_take. f_equal. lia.
Qed.

(** X6: when every row the driver delivers scans without error,
    [JsonRowsScanner.Scan] sets the header to the column names and
    appends exactly the page of the result that its offset and limit
    cut out: the rows from index [Offset] on, at most [Limit] of them,
    in order. It returns the error that ended the iteration only if it
    read the rows to the end, that is, if there were at most
    [Offset+Limit] of them; otherwise it stops early and returns nil. *)
Theorem Scan_returns_page (j : db.JsonRowsScanner) (rows : sql.Rows)
    (scan : db.RowScanner) (maps : list (gmap gostring any)) :
  db.NewRowScanner rows = Ok scan ->
  0 <= db.Offset j -> 0 <= db.Limit j -> db.Offset j + db.Limit j < maxInt ->
  Forall2 (scanning.gives scan (db.Columns scan)) (sql.pending rows) maps ->
  exists (j' : db.JsonRowsScanner) (rows' : sql.Rows),
    db.JsonRowsScanner_Scan j rows
      = Some (j', rows',
              if decide (Z.of_nat (length (sql.pending rows)) <= db.Offset j + db.Limit j)
              then sql.eof_err rows else None) /\
    db.Header j' = db.Columns scan /\
    db.j_Rows j'
      = db.j_Rows j ++ take (Z.to_nat (db.Limit j)) (drop (Z.to_nat (db.Offset j)) maps).
Proof.
  intros Hnew Hoff Hlim Hsum Hgives. case_decide as Hcount.
  - by apply Scan_page_to_the_end.
  - apply Scan_page_stops_early; try done. lia.
Qed.

(** X7: a row that fails to scan makes [JsonRowsScanner.Scan] return its
    error as soon as the loop reaches it, provided the rows before it
    scan and it lies no later than index [Offset+Limit]; this holds also
    for a row before the offset, which would not have been part of the
    page. *)
Theorem Scan_fails_on_bad_row (j : db.JsonRowsScanner) (rows : sql.Rows)
    (scan : db.RowScanner) (good : list (list any)) (bad : list any)
    (rest : list (list any)) (maps : list (gmap gostring any)) (e : error) :
  db.NewRowScanner rows = Ok scan ->
  0 <= db.Offset j -> 0 <= db.Limit j -> db.Offset j + db.Limit j < maxInt ->
  sql.pending rows = good ++ bad :: rest ->
  Forall2 (scanning.gives scan (db.Columns scan)) good maps ->
  scanning.fails scan bad e ->
  Z.of_nat (length good) <= db.Offset j + db.Limit j ->
  exists (j' : db.JsonRowsScanner) (rows' : sql.Rows),
    db.JsonRowsScanner_Scan j rows = Some (j', rows', Some e).
Proof.
  intros Hnew Hoff Hlim Hsum Hsplit Hgives Hfails Hlen.
  destruct (NewRowScanner_Ok rows scan Hnew) as (Hrows & Hcols & Hncols).
  unfold db.JsonRowsScanner_Scan. rewrite Hnew, Hcols, Hsplit.
  set (o := Z.to_nat (db.Offset j)). set (l := Z.to_nat (db.Limit j)).
  set (j0 := db.StartRows j (db.Columns scan)).
  destruct (scan_loop_prefix scan o l good ltac:(lia) maps (bad :: rest) scan j0 0%nat)
    as (scan' & j' & Hloop & Ht & Hn & _); try done;
    [simpl; lia|simpl; lia|lia|].
  change (Z.of_nat 0) with 0 in Hloop. rewrite Hloop. cbn [db.scan_loop].
  change {| db.rs_Rows := sql.advance (db.rs_Rows scan') bad rest;
            db.Types := db.Types scan'; db.LowerColumns := db.LowerColumns scan';
            db.Columns := db.Columns scan' |}
    with (scanning.on_row scan' bad rest).
  rewrite (Scan_on_row scan' scan bad rest []) by done.
  unfold scanning.fails in Hfails. rewrite Hfails. by eexists _, _.
Qed.

End PageFacts.

(** Three rows, offset 1, limit 1: the page is the second row, and the
    scan stops before the end. *)
Lemma Scan_returns_page_witness :
  exists maps j' rows',
    Forall2 (@scanning.gives scripted.libs (scripted.kv_scanner scripted.three_rows)
               [lit "k"; lit "v"])
            scripted.three_rows maps /\
    @db.JsonRowsScanner_Scan scripted.tables scripted.libs (db.NewJsonRowsScanner 1 1)
      (scripted.kv_rows scripted.three_rows) = Some (j', rows', None) /\
    db.j_Rows j' = take 1 (drop 1 maps).
Proof.
  assert (exists maps,
    Forall2 (@scanning.gives scripted.libs (scripted.kv_scanner scripted.three_rows)
               (db.Columns (scripted.kv_scanner scripted.three_rows)))
            (sql.pending (scripted.kv_rows scripted.three_rows)) maps) as [maps Hgives].
  { eexists. unfold scripted.kv_rows, scripted.three_rows. cbn [sql.pending].
    repeat (apply List.Forall2_cons; [eexists; split; vm_compute; reflexivity|]).
    apply List.Forall2_nil. }
  destruct (@Scan_returns_page scripted.tables scripted.libs (db.NewJsonRowsScanner 1 1)
              (scripted.kv_rows scripted.three_rows)
              (scripted.kv_scanner scripted.three_rows) maps)
    as (j' & rows' & Hscan & _ & Hrows);
    [vm_compute; reflexivity | vm_compute; congruence | vm_compute; congruence
    | vm_compute; reflexivity | exact Hgives |].
  rewrite decide_False in Hscan by (vm_compute; congruence).
  exists maps, j', rows'. by repeat split.
Defined.

(** A bad second row fails the scan although the offset is 5. *)
Lemma Scan_fails_on_bad_row_witness :
  exists j' rows' e,
    @scanning.fails scripted.libs
       (scripted.kv_scanner (scripted.one_row ++ scripted.bad_row :: scripted.one_row))
       scripted.bad_row e /\
    @db.JsonRowsScanner_Scan scripted.tables scripted.libs (db.NewJsonRowsScanner 5 1)
      (scripted.kv_rows (scripted.one_row ++ scripted.bad_row :: scripted.one_row))
      = Some (j', rows', Some e).
Proof.
  assert (exists e, @scanning.fails scripted.libs
       (scripted.kv_scanner (scripted.one_row ++ scripted.bad_row :: scripted.one_row))
       scripted.bad_row e) as [e Hfails].
  { eexists. vm_compute. reflexivity. }
  assert (exists maps,
    Forall2 (@scanning.gives scripted.libs
               (scripted.kv_scanner
                  (scripted.one_row ++ scripted.bad_row :: scripted.one_row))
               [lit "k"; lit "v"]) scripted.one_row maps) as [maps Hgives].
  { eexists. unfold scripted.one_row.
    repeat (apply List.Forall2_cons; [eexists; split; vm_compute; reflexivity|]).
    apply List.Forall2_nil. }
  destruct (@Scan_fails_on_bad_row scripted.tables scripted.libs
              (db.NewJsonRowsScanner 5 1)
              (scripted.kv_rows (scripted.one_row ++ scripted.bad_row :: scripted.one_row))
              (scripted.kv_scanner
                 (scripted.one_row ++ scripted.bad_row :: scripted.one_row))
              scripted.one_row scripted.bad_row scripted.one_row maps e)
    as (j' & rows' & Hscan);
    [vm_compute; reflexivity | vm_compute; congruence | vm_compute; congruence
    | vm_compute; reflexivity | reflexivity | exact Hgives | exact Hfails
    | vm_compute; congruence |].
  by exists j', rows', e.
Defined.

(** ** The cells of a row *)

Section CellFacts.
Context `{Libs}.

Lemma convertAlias_loop_kind (aliases : list db.AliasConvert) (ns : db.NullAny) (value : any) :
  Forall (fun a => forall typ rv n,
            db.ns_ValueType (db.Converter a typ rv n) = db.ValueTypeString /\
            db.ns_Valid (db.Converter a typ rv n) = db.ns_Valid n) aliases ->
  db.ns_Valid (db.convertAlias_loop aliases ns value) = db.ns_Valid ns /\
  (db.ns_ValueType (db.convertAlias_loop aliases ns value) = db.ValueTypeString \/
   db.ns_ValueType (db.convertAlias_loop aliases ns value) = db.ns_ValueType ns).
Proof.
  induction aliases as [|a aliases IH]; intros Hall; simpl.
  - by split; [|right].
  - apply Forall_cons in Hall as [Ha Hall].
    destruct (reflect_CanConvert value (db.ac_Type a)); [|by apply IH].
    destruct (Ha (db.ac_Type a) value ns) as [Hk Hv]. by split; [|left].
Qed.

Lemma aliasConverters_kind :
  Forall (fun a => forall typ rv n,
            db.ns_ValueType (db.Converter a typ rv n) = db.ValueTypeString /\
            db.ns_Valid (db.Converter a typ rv n) = db.ns_Valid n) db.aliasConverters.
Proof.
  unfold db.aliasConverters. repeat constructor; simpl.
  - by destruct (time_Clock _) as [[hour minute] sec].
  - by destruct (time_Clock _) as [[hour minute] sec].
Qed.

(** After the switch on the dynamic type the receiver is as valid as
    before; its kind is Int64 or Float64 only with a value of that
    sort. *)
Lemma scan_by_dynamic_type_kind (ns : db.NullAny) (value : any) :
  db.ns_ValueType ns <> db.ValueTypeInt64 ->
  db.ns_ValueType ns <> db.ValueTypeFloat64 ->
  let ns' := db.scan_by_dynamic_type ns value in
  db.ns_Valid ns' = db.ns_Valid ns /\
  (db.ns_ValueType ns' = db.ValueTypeInt64 -> exists k n, db.ns_Value ns' = VInt k n) /\
  (db.ns_ValueType ns' = db.ValueTypeFloat64 -> exists k b, db.ns_Value ns' = VFloat k b).
Proof.
  intros Hint Hfloat.
  assert (forall ns0 : db.NullAny,
            db.ns_ValueType ns0 = db.ValueTypeString \/
            db.ns_ValueType ns0 = db.ns_ValueType ns ->
            (db.ns_ValueType ns0 = db.ValueTypeInt64 ->
             exists k n, db.ns_Value ns0 = VInt k n) /\
            (db.ns_ValueType ns0 = db.ValueTypeFloat64 ->
             exists k b, db.ns_Value ns0 = VFloat k b)) as Hother.
  { intros ns0 [Hk|Hk]; rewrite Hk; split; intros Heq; (done || congruence). }
  assert (db.ns_Valid (db.convertAlias ns value) = db.ns_Valid ns /\
          (db.ns_ValueType (db.convertAlias ns value) = db.ValueTypeString \/
           db.ns_ValueType (db.convertAlias ns value) = db.ns_ValueType ns))
    as [Hav Hak] by (apply convertAlias_loop_kind, aliasConverters_kind).
  destruct value; simpl; try (split; [exact Hav|by apply Hother]).
  - split; [done|]. split; [by eauto|done].
  - split; [done|]. split; [done|by eauto].
  - split; [done|]. by split.
  - destruct (_ <? 1024).
    + destruct (_ =? db.ValueTypeOther); simpl; (split; [done|]).
      * by split.
      * by apply Hother; right.
    + simpl. split; [done|]. by split.
Qed.

Lemma getColValue_shape (n : db.NullAny) :
  db.ns_Valid n = true ->
  (db.ns_ValueType n = db.ValueTypeInt64 -> exists k z, db.ns_Value n = VInt k z) ->
  (db.ns_ValueType n = db.ValueTypeFloat64 -> exists k b, db.ns_Value n = VFloat k b) ->
  (exists k z, db.getColValue n = VInt k z) \/
  (exists k b, db.getColValue n = VFloat k b) \/
  (exists s, db.getColValue n = VString s).
Proof.
  intros Hvalid Hi Hf. unfold db.getColValue. rewrite Hvalid. simpl.
  destruct (Z.eqb_spec (db.ns_ValueType n) db.ValueTypeInt64) as [Hk|_].
  { destruct (Hi Hk) as (k' & n' & ->). left. by eexists _, _. }
  destruct (Z.eqb_spec (db.ns_ValueType n) db.ValueTypeFloat64) as [Hk|_]; simpl.
  { destruct (Hf Hk) as (k' & b' & ->). right; left. by eexists _, _. }
  right; right. destruct (_ =? db.ValueTypeBytes), (db.ns_Value n); by eexists.
Qed.

(** X8: what a cell can be. The cell that [getColValue] makes of a
    scanned value is nil exactly when the driver value is nil (SQL
    NULL); otherwise it is an integer, a float or a string, never a
    boolean, a byte slice, a time or any other value. *)
Theorem cell_is_null_number_or_string (ns : db.NullAny) (value : any) :
  (db.getColValue (db.NullAny_Scan ns value).1 = Nil <-> value = Nil) /\
  (value <> Nil ->
   (exists k n, db.getColValue (db.NullAny_Scan ns value).1 = VInt k n) \/
   (exists k b, db.getColValue (db.NullAny_Scan ns value).1 = VFloat k b) \/
   (exists s, db.getColValue (db.NullAny_Scan ns value).1 = VString s)).
Proof.
  assert (value <> Nil ->
   (exists k n, db.getColValue (db.NullAny_Scan ns value).1 = VInt k n) \/
   (exists k b, db.getColValue (db.NullAny_Scan ns value).1 = VFloat k b) \/
   (exists s, db.getColValue (db.NullAny_Scan ns value).1 = VString s)) as Hcell.
  { intros Hv. destruct ns as [v0 k valid].
    assert (db.is_nil value = false) as Hnil by (by destruct value).
    unfold db.NullAny_Scan. cbn [db.ns_Value db.ns_ValueType db.ns_Valid].
    rewrite Hnil. cbn [negb].
    set (ns0 := {| db.ns_Value := v0; db.ns_ValueType := k; db.ns_Valid := true |}).
    assert (k <> db.ValueTypeInt64 -> k <> db.ValueTypeFloat64 ->
      (exists k' n, db.getColValue (db.scan_by_dynamic_type ns0 value) = VInt k' n) \/
      (exists k' b, db.getColValue (db.scan_by_dynamic_type ns0 value) = VFloat k' b) \/
      (exists s, db.getColValue (db.scan_by_dynamic_type ns0 value) = VString s))
      as Hdyn.
    { intros Hk2 Hk3.
      destruct (scan_by_dynamic_type_kind ns0 value) as (Hvalid & Hi & Hf);
        [done|done|].
      by apply getColValue_shape. }
    destruct (Z.eqb_spec k db.ValueTypeBool) as [->|?].
    { destruct (sql_NullBool_Scan value). right; right. by eexists. }
    destruct (Z.eqb_spec k db.ValueTypeInt64) as [->|?].
    { destruct (sql_NullInt64_Scan value). left. by eexists _, _. }
    destruct (Z.eqb_spec k db.ValueTypeFloat64) as [->|?].
    { destruct (sql_NullFloat64_Scan value). right; left. by eexists _, _. }
    destruct (Z.eqb_spec k db.ValueTypeString) as [->|?].
    { destruct (sql_NullString_Scan value). right; right. by eexists. }
    destruct (Z.eqb_spec k db.ValueTypeBytes) as [->|?]; cbn [andb].
    { destruct (db.is_bytes value) eqn:Hb; cbn [fst].
      - destruct value; try done. right; right. by eexists.
      - by apply Hdyn. }
    cbn [fst]. by apply Hdyn. }
  split; [|exact Hcell]. split.
  - intros Hnil. destruct value; try done;
      (edestruct Hcell as [(k' & n' & Hc)|[(k' & b' & Hc)|(s' & Hc)]];
       [done|congruence..]).
  - intros ->. by destruct ns.
Qed.

(** X9: how the four typed kinds show a non-nil value: an Int64 or
    Float64 column shows the number [sql.NullInt64] or [sql.NullFloat64]
    read, as a number; a Bool or String column shows what [sql.NullBool]
    or [sql.NullString] read, printed with [%v] and put in quotes, so a
    boolean comes out as a quoted string. *)
Theorem typed_cells (value : any) :
  value <> Nil ->
  scanning.cell db.ValueTypeInt64 value = VInt KInt64 (sql_NullInt64_Scan value).1 /\
  scanning.cell db.ValueTypeFloat64 value = VFloat KFloat64 (sql_NullFloat64_Scan value).1 /\
  scanning.cell db.ValueTypeBool value
    = VString (db.Quote (fmt_Sprintf_v (VBool (sql_NullBool_Scan value).1))) /\
  scanning.cell db.ValueTypeString value
    = VString (db.Quote (fmt_Sprintf_v (VString (sql_NullString_Scan value).1))).
Proof.
  intros Hv. assert (db.is_nil value = false) as Hnil by (by destruct value).
  unfold scanning.cell, scanning.fresh, db.NullAny_Scan.
  cbn [db.ns_Value db.ns_ValueType db.ns_Valid]. rewrite Hnil. cbn.
  destruct (sql_NullInt64_Scan value), (sql_NullFloat64_Scan value),
    (sql_NullBool_Scan value), (sql_NullString_Scan value). done.
Qed.

(** X10: byte slices. A column of kind Bytes (a LOB) shows a byte slice
    as the string of its bytes, without quotes, whatever its length. A
    column of kind Other shows a byte slice shorter than 1024 bytes as a
    quoted string, and one of 1024 bytes or more as the bare string of
    its bytes, without quotes. *)
Theorem bytes_cells (data : list byte) :
  scanning.cell db.ValueTypeBytes (VBytes data) = VString (string_of_bytes data) /\
  scanning.cell db.ValueTypeOther (VBytes data)
    = if Z.of_nat (length data) <? 1024
      then VString (db.Quote (fmt_Sprintf_v (VString (string_of_bytes data))))
      else VString (string_of_bytes data).
Proof.
  unfold scanning.cell, scanning.fresh, db.NullAny_Scan. cbn. split; [done|].
  by destruct (Z.of_nat (length data) <? 1024).
Qed.

(** X11: [NullAny.Scan] marks the receiver valid exactly for a non-nil
    value; for nil it returns no error and leaves value and kind alone;
    and it can return an error only for a receiver of kind Bool, Int64,
    Float64 or String. *)
Theorem NullAny_Scan_valid_and_errors (ns : db.NullAny) (value : any) :
  (db.ns_Valid (db.NullAny_Scan ns value).1 = true <-> value <> Nil) /\
  (value = Nil ->
   db.NullAny_Scan ns value
     = ({| db.ns_Value := db.ns_Value ns; db.ns_ValueType := db.ns_ValueType ns;
           db.ns_Valid := false |}, None)) /\
  (db.ns_ValueType ns ∉ [db.ValueTypeBool; db.ValueTypeInt64; db.ValueTypeFloat64;
                         db.ValueTypeString] ->
   (db.NullAny_Scan ns value).2 = None).
Proof.
  split; [|split].
  - destruct ns as [v0 k valid]. unfold db.NullAny_Scan.
    cbn [db.ns_Value db.ns_ValueType db.ns_Valid].
    destruct (db.is_nil value) eqn:Hnil; cbn [negb].
    { destruct value; try discriminate Hnil. simpl. split; [done|]. intros Hne. by destruct Hne. }
    assert (value <> Nil) as Hv by (by destruct value).
    set (ns0 := {| db.ns_Value := v0; db.ns_ValueType := k; db.ns_Valid := true |}).
    assert (db.ns_Valid (db.scan_by_dynamic_type ns0 value) = true) as Hdyn.
    { assert (forall v, db.ns_Valid (db.convertAlias ns0 v) = true) as Hconv.
      { intros v. unfold db.convertAlias.
        by destruct (convertAlias_loop_kind db.aliasConverters ns0 v
                       aliasConverters_kind) as [-> _]. }
      unfold db.scan_by_dynamic_type. destruct value; try apply Hconv; try done.
      destruct (_ <? 1024); [|done]. by destruct (_ =? db.ValueTypeOther). }
    split; [done|]. intros _.
    destruct (k =? db.ValueTypeBool); [by destruct (sql_NullBool_Scan value)|].
    destruct (k =? db.ValueTypeInt64); [by destruct (sql_NullInt64_Scan value)|].
    destruct (k =? db.ValueTypeFloat64); [by destruct (sql_NullFloat64_Scan value)|].
    destruct (k =? db.ValueTypeString); [by destruct (sql_NullString_Scan value)|].
    by destruct (_ && _).
  - intros ->. done.
  - intros Hkind. unfold db.NullAny_Scan.
    cbn [db.ns_Value db.ns_ValueType db.ns_Valid].
    destruct (negb (negb (db.is_nil value))); [done|].
    destruct (Z.eqb_spec (db.ns_ValueType ns) db.ValueTypeBool) as [Hk|_];
      [exfalso; apply Hkind; rewrite Hk, !elem_of_cons; eauto 10|].
    destruct (Z.eqb_spec (db.ns_ValueType ns) db.ValueTypeInt64) as [Hk|_];
      [exfalso; apply Hkind; rewrite Hk, !elem_of_cons; eauto 10|].
    destruct (Z.eqb_spec (db.ns_ValueType ns) db.ValueTypeFloat64) as [Hk|_];
      [exfalso; apply Hkind; rewrite Hk, !elem_of_cons; eauto 10|].
    destruct (Z.eqb_spec (db.ns_ValueType ns) db.ValueTypeString) as [Hk|_];
      [exfalso; apply Hkind; rewrite Hk, !elem_of_cons; eauto 10|].
    by destruct (_ && _).
Qed.

End CellFacts.

(** ** Values of other dynamic types *)

Section AliasFacts.
Context `{Libs}.

(** X12: a value whose dynamic type the switch of [NullAny.Scan] has no
    case for, in a column that is not of kind Bool, Int64, Float64 or
    String: if it converts to [time.Time], the cell is the quoted time,
    printed as a date only when the clock reads midnight to the
    nanosecond, without a fraction when the nanoseconds are zero, and
    with the fraction otherwise; else, if it converts to [string], the
    cell is that string, quoted; else the cell is the value printed with
    [%v], quoted. The conversion to [time.Time] is tried first. *)
Theorem alias_cells (t : Z) (value : any) :
  t ∉ [db.ValueTypeBool; db.ValueTypeInt64; db.ValueTypeFloat64; db.ValueTypeString] ->
  match value with VBool _ | VTime _ | VError _ | VOther _ _ => True | _ => False end ->
  scanning.cell t value =
    if reflect_CanConvert value TimeType then
      let tm := reflect_Convert_Time value in
      let layout :=
        if bool_decide (time_Clock tm = (0, 0, 0)) && (time_Nanosecond tm =? 0)
        then lit "2006-01-02"
        else if time_Nanosecond tm =? 0 then lit "2006-01-02 15:04:05"
        else lit "2006-01-02 15:04:05.999999999" in
      VString (db.Quote (fmt_Sprintf_v (VString (time_Format tm layout))))
    else if reflect_CanConvert value StringType then
      VString (db.Quote (fmt_Sprintf_v (VString (reflect_Convert_String value))))
    else VString (db.Quote (fmt_Sprintf_v value)).
Proof.
  intros Hkind Hvalue.
  assert (((t =? db.ValueTypeBool) = false) /\ ((t =? db.ValueTypeInt64) = false) /\
          ((t =? db.ValueTypeFloat64) = false) /\ ((t =? db.ValueTypeString) = false))
    as (Hb & Hi & Hf & Hs).
  { repeat split; apply Z.eqb_neq; intros ->; apply Hkind;
      rewrite !elem_of_cons; eauto 10. }
  assert (db.is_nil value = false /\ db.is_bytes value = false) as [Hnil Hbytes]
    by (by destruct value).
  unfold scanning.cell, scanning.fresh, db.NullAny_Scan.
  cbn [db.ns_Value db.ns_ValueType db.ns_Valid].
  rewrite Hnil, Hb, Hi, Hf, Hs, Hbytes, andb_false_r. cbn [negb fst].
  set (ns0 := {| db.ns_Value := Nil; db.ns_ValueType := t; db.ns_Valid := true |}).
  assert (db.scan_by_dynamic_type ns0 value = db.convertAlias ns0 value) as ->
    by (by destruct value).
  unfold db.convertAlias, db.aliasConverters.
  cbn [db.convertAlias_loop db.ac_Type db.Converter].
  destruct (reflect_CanConvert value TimeType).
  - destruct (time_Clock (reflect_Convert_Time value)) as [[hour minute] sec].
    unfold db.getColValue. simpl.
    assert (bool_decide ((hour, minute, sec) = (0, 0, 0))
            = (hour =? 0) && (minute =? 0) && (sec =? 0)) as ->.
    { destruct (Z.eqb_spec hour 0) as [->|?], (Z.eqb_spec minute 0) as [->|?],
        (Z.eqb_spec sec 0) as [->|?]; simpl;
        done || (by apply bool_decide_eq_true_2)
        || (apply bool_decide_eq_false_2; congruence). }
    destruct (_ && _); [done|]. by destruct (_ =? 0).
  - destruct (reflect_CanConvert value StringType).
    + done.
    + unfold db.getColValue, db.set_value. cbn [db.ns_Value db.ns_ValueType db.ns_Valid].
      subst ns0. cbn [db.ns_Value db.ns_ValueType db.ns_Valid].
      rewrite Hi, Hf. cbn [negb orb].
      destruct (t =? db.ValueTypeBytes); by destruct value.
Qed.

End AliasFacts.

(** A time that reads midnight, in a column of kind Other: the cell is
    the quoted date layout (the scripted [Format] returns its layout). *)
Lemma alias_cells_witness :
  (db.ValueTypeOther ∉ [db.ValueTypeBool; db.ValueTypeInt64; db.ValueTypeFloat64;
                        db.ValueTypeString]) /\
  @scanning.cell scripted.libs db.ValueTypeOther (VTime 0)
    = VString (db.Quote (lit "2006-01-02")).
Proof.
  assert (db.ValueTypeOther ∉ [db.ValueTypeBool; db.ValueTypeInt64;
                               db.ValueTypeFloat64; db.ValueTypeString]) as Hkind.
  { apply (bool_decide_unpack _). vm_compute. exact I. }
  split; [exact Hkind|].
  rewrite (@alias_cells scripted.libs db.ValueTypeOther (VTime 0) Hkind I).
  vm_compute. reflexivity.
Defined.

(** A non-nil integer in each of the four typed kinds, in the scripted
    library. *)
Lemma typed_cells_witness :
  VInt KInt64 5 <> Nil /\
  @scanning.cell scripted.libs db.ValueTypeInt64 (VInt KInt64 5) = VInt KInt64 5.
Proof.
  assert (VInt KInt64 5 <> Nil) as Hv by discriminate.
  split; [exact Hv|].
  destruct (@typed_cells scripted.libs (VInt KInt64 5) Hv) as (-> & _).
  vm_compute. reflexivity.
Defined.

(** ** The result of [Exec] and the status of [/query] *)

Section ExecFacts.
Context `{CaseTables} `{Libs} {W : Type} `{DB W} `{Clock W}.

(** X13: an [Exec] that the database accepts, run with a scanner that
    has no offset and a limit of at least one, adds exactly one row: the
    last insert id and the number of rows affected, as integers under
    the keys [lastInsertId] and [rowsAffected], with the joined error
    under [error] as a third key exactly when one of the two accessors
    failed; the result has an empty error. *)
Theorem Exec_result_row ctx q args (scanner : db.JsonRowsScanner) (w w3 : W)
    (result : sql.Result_) :
  ExecContext ctx q args (db.sent ctx w) = (w3, Ok result) ->
  db.Offset scanner = 0 -> 1 <= db.Limit scanner < maxInt ->
  db.Exec ctx q args scanner w =
    Some ((time_Now w3).1,
          {| db.Error := [];
             db.Cost := Duration_String (time_Sub (time_Now w3).2 (db.started ctx w));
             db.Rows :=
               db.j_Rows scanner ++
               [ let ids : gmap gostring any :=
                   <[lit "rowsAffected" := VInt KInt64 (sql.RowsAffected result).1]>
                     (<[lit "lastInsertId" := VInt KInt64 (sql.LastInsertId result).1]> ∅) in
                 match multierr.Append (sql.LastInsertId result).2
                                       (sql.RowsAffected result).2 with
                 | Some err => <[lit "error" := VError err]> ids
                 | None => ids
                 end ] |}).
Proof.
  intros Hexec Hoff Hlim.
  unfold db.sent, db.started, db.pinged, db.Exec in *.
  destruct (db.PingDB ctx (3 * Second) w) as [[w1 events] perr]. simpl in *.
  unfold db.StartExecute. destruct (time_Now w1) as [w2 t0] eqn:Hnow. simpl in *.
  rewrite Hexec.
  destruct (sql.LastInsertId result) as [id err1].
  destruct (sql.RowsAffected result) as [affected err2]. cbn [fst snd].
  destruct (multierr.Append err1 err2) as [err|]; unfold db.AddRow; simpl;
    rewrite Hoff; simpl;
    rewrite !int_add_small by (unfold minInt, maxInt in *; lia);
    (destruct (Z.ltb_spec (db.Limit scanner + 0) (0 + 1)); [lia|]);
    simpl; unfold db.Complete; destruct (time_Now w3) as [w4 t1]; done.
Qed.

(** X14: the handler of [/query] never sets a status: whenever it
    returns, the status the client gets is the one the writer already
    had, 200 for a new writer; this holds also when the statement failed
    and the body carries the error, and when encoding failed and nothing
    was written. *)
Theorem handle_query_status (rw rw' : http.ResponseWriter) (r : http.Request)
    (world world' : W) (logs : list error) :
  main.handle_query rw r world = Some (world', rw', logs) ->
  http.status_sent rw' = http.status_sent rw /\
  (rw = http.new_writer -> http.status_sent rw' = http.StatusOK) /\
  (length (http.body rw') <= S (length (http.body rw)))%nat.
Proof.
  unfold main.handle_query.
  destruct (db.RunSQL _ _ _) as [[world1 qr]|]; [|done].
  assert (forall doc, http.status_sent (http.Write rw doc) = http.status_sent rw) as Hw.
  { intros doc. unfold http.status_sent, http.Write. simpl.
    by destruct (http.wrote_header rw). }
  destruct (json.Marshal qr) as [doc|e]; intros [= <- <- <-].
  - rewrite Hw. split; [done|]. split; [by intros ->|].
    simpl. rewrite length_app. simpl. lia.
  - split; [done|]. split; [by intros ->|]. lia.
Qed.

End ExecFacts.

(** The scripted insert: one row with id 7 and one row affected. *)
Lemma Exec_result_row_witness :
  scripted.Exec Background (lit "delete from kv") [] (db.NewJsonRowsScanner 0 30)
    scripted.world_exec
  = Some ({| scripted.clock := 2; scripted.queries := []; scripted.execs := [] |},
          {| db.Error := []; db.Cost := lit "1ns";
             db.Rows := [ <[lit "rowsAffected" := VInt KInt64 1]>
                            (<[lit "lastInsertId" := VInt KInt64 7]> ∅) ] |}).
Proof.
  unfold scripted.Exec.
  rewrite (@Exec_result_row scripted.libs scripted.World scripted.database
             scripted.ticking Background (lit "delete from kv") []
             (db.NewJsonRowsScanner 0 30) scripted.world_exec
             {| scripted.clock := 1; scripted.queries := []; scripted.execs := [] |}
             {| sql.LastInsertId := (7, None); sql.RowsAffected := (1, None) |});
    [vm_compute; reflexivity | vm_compute; reflexivity | reflexivity
    | vm_compute; split; congruence].
Defined.

(** The scripted query answered through the handler: status 200. *)
Lemma handle_query_status_witness :
  exists world' rw' logs,
    scripted.handle_query http.new_writer (scripted.request (lit "select * from kv"))
      scripted.world_down = Some (world', rw', logs) /\
    http.status_sent rw' = http.StatusOK.
Proof.
  destruct (scripted.handle_query http.new_writer
              (scripted.request (lit "select * from kv")) scripted.world_down)
    as [[[world' rw'] logs]|] eqn:Hh; [|vm_compute in Hh; discriminate Hh].
  exists world', rw', logs. split; [done|].
  destruct (@handle_query_status scripted.tables scripted.libs scripted.World
              scripted.database scripted.ticking _ _ _ _ _ _ Hh) as (_ & Hnew & _).
  by apply Hnew.
Defined.

(** ** A select through [Query] *)

Section SelectFacts.
Context `{CaseTables} `{Libs} {W : Type} `{DB W} `{Clock W}.

(** X15: a statement that [RunSQL] hands to [Query] and whose rows all
    scan returns the first 30 rows of the result, in order, with no
    error, if the iteration ended cleanly or there were more than 30
    rows; an error that ends an iteration of at most 30 rows replaces
    the whole result, the rows read so far included, and one that would
    end a longer iteration is never seen. *)
Theorem Query_returns_first_30 (ctx : Context) (q : gostring) (w w3 : W) (rows : sql.Rows)
    (scan : db.RowScanner) (maps : list (gmap gostring any)) :
  QueryContext ctx q [] (db.sent ctx w) = (w3, Ok rows) ->
  db.NewRowScanner rows = Ok scan ->
  Forall2 (scanning.gives scan (db.Columns scan)) (sql.pending rows) maps ->
  ((30 < length (sql.pending rows))%nat \/ sql.eof_err rows = None ->
   db.Query ctx q [] (db.NewJsonRowsScanner 0 30) w =
     Some ((time_Now w3).1,
           {| db.Error := [];
              db.Cost := Duration_String (time_Sub (time_Now w3).2 (db.started ctx w));
              db.Rows := take 30 maps |})) /\
  (forall e, (length (sql.pending rows) <= 30)%nat -> sql.eof_err rows = Some e ->
   db.Query ctx q [] (db.NewJsonRowsScanner 0 30) w
     = Some (w3, {| db.Error := e; db.Cost := []; db.Rows := [] |})).
Proof.
  intros Hq Hnew Hgives.
  set (j := (db.StartExecute (db.NewJsonRowsScanner 0 30) (db.pinged ctx w)).2).
  assert (db.Offset j = 0 /\ db.Limit j = 30 /\ db.j_Rows j = []) as (Ho & Hl & Hr).
  { unfold j, db.StartExecute. by destruct (time_Now _). }
  assert (db.Offset j + db.Limit j < maxInt) as Hsum
    by (rewrite Ho, Hl; unfold maxInt; lia).
  assert (forall j' : db.JsonRowsScanner,
            db.j_Rows j' = db.j_Rows j ++
              take (Z.to_nat (db.Limit j)) (drop (Z.to_nat (db.Offset j)) maps) ->
            db.j_Rows j' = take 30 maps) as Hpage.
  { intros j' ->. by rewrite Ho, Hl, Hr. }
  split.
  - intros Hclean.
    assert (exists j' rows',
              db.JsonRowsScanner_Scan j rows = Some (j', rows', None) /\
              db.j_Rows j' = take 30 maps) as (j' & rows' & Hscan & Hrows).
    { destruct (decide (30 < length (sql.pending rows))%nat) as [Hlong|Hshort].
      - destruct (Scan_page_stops_early j rows scan maps Hnew)
          as (j' & rows' & Hscan & _ & Hrows); try done; try lia. eauto.
      - destruct Hclean as [Hlong|Hnone]; [lia|].
        destruct (Scan_page_to_the_end j rows scan maps Hnew)
          as (j' & rows' & Hscan & _ & Hrows); try done; try lia.
        rewrite Hnone in Hscan. eauto. }
    rewrite (Query_succeeds ctx q [] _ w w3 rows j' rows' Hq Hscan). by rewrite Hrows.
  - intros e Hlen He.
    destruct (Scan_page_to_the_end j rows scan maps Hnew)
      as (j' & rows' & Hscan & _ & _); try done; try lia.
    rewrite He in Hscan.
    by rewrite (Query_scan_fails ctx q [] _ w w3 rows j' rows' e Hq Hscan).
Qed.

End SelectFacts.

(** The scripted select of one row. *)
Lemma Query_returns_first_30_witness :
  exists maps w4 cost,
    Forall2 (@scanning.gives scripted.libs (scripted.kv_scanner scripted.one_row)
               [lit "k"; lit "v"]) scripted.one_row maps /\
    scripted.Query Background (lit "select * from kv") [] (db.NewJsonRowsScanner 0 30)
      scripted.world_ok
    = Some (w4, {| db.Error := []; db.Cost := cost; db.Rows := take 30 maps |}).
Proof.
  assert (exists maps,
    Forall2 (@scanning.gives scripted.libs (scripted.kv_scanner scripted.one_row)
               (db.Columns (scripted.kv_scanner scripted.one_row)))
            (sql.pending (scripted.kv_rows scripted.one_row)) maps) as [maps Hgives].
  { eexists. unfold scripted.kv_rows, scripted.one_row. cbn [sql.pending].
    repeat (apply List.Forall2_cons; [eexists; split; vm_compute; reflexivity|]).
    apply List.Forall2_nil. }
  destruct (@Query_returns_first_30 scripted.tables scripted.libs scripted.World
              scripted.database scripted.ticking Background (lit "select * from kv")
              scripted.world_ok
              {| scripted.clock := 1; scripted.queries := []; scripted.execs := [] |}
              (scripted.kv_rows scripted.one_row)
              (scripted.kv_scanner scripted.one_row) maps)
    as [Hclean _];
    [vm_compute; reflexivity | vm_compute; reflexivity | exact Hgives |].
  eexists maps, _, _. split; [exact Hgives|].
  unfold scripted.Query. rewrite Hclean by (right; reflexivity). reflexivity.
Defined.

(** Two spellings of one valid string: an accented letter, then a quote. *)
Lemma Quote_bytes_injective_on_valid_strings_witness :
  utf8.ValidString [195; 169; 39] = true /\
  utf8.ValidString ([195] ++ [169; 39]) = true /\
  db.Quote_bytes [195; 169; 39] = db.Quote_bytes ([195] ++ [169; 39]) /\
  [195; 169; 39] = [195] ++ [169; 39].
Proof.
  assert (utf8.ValidString [195; 169; 39] = true) as Hv1 by (vm_compute; reflexivity).
  assert (utf8.ValidString ([195] ++ [169; 39]) = true) as Hv2
    by (vm_compute; reflexivity).
  assert (db.Quote_bytes [195; 169; 39] = db.Quote_bytes ([195] ++ [169; 39])) as Hq
    by (vm_compute; reflexivity).
  split; [exact Hv1|]. split; [exact Hv2|]. split; [exact Hq|].
  exact (proj1 (proj2 (Quote_bytes_injective_on_valid_strings _ _)) Hv1 Hv2 Hq).
Defined.

(** A valid string without a quote: an accented letter, then a backslash. *)
Lemma Quote_bytes_shape_witness :
  utf8.ValidString [195; 169; 92] = true /\
  (db.quote ∉ [195; 169; 92]) /\
  length (db.Quote_bytes [195; 169; 92]) = 5%nat /\
  db.Quote_bytes [195; 169; 92] = db.quote :: [195; 169; 92] ++ [db.quote].
Proof.
  assert (utf8.ValidString [195; 169; 92] = true) as Hv by (vm_compute; reflexivity).
  assert (db.quote ∉ [195; 169; 92]) as Hnot.
  { apply (bool_decide_unpack _). vm_compute. exact I. }
  split; [exact Hv|]. split; [exact Hnot|].
  destruct (Quote_bytes_shape [195; 169; 92]) as (_ & _ & _ & Hvalid & _).
  destruct (Hvalid Hv) as [Hlen Hplain].
  split; [by rewrite Hlen|]. by apply Hplain.
Defined.

(** A boolean scanned in a column of kind Other is shown as a string. *)
Lemma cell_is_null_number_or_string_witness :
  VBool true <> Nil /\
  ((exists k n, @scanning.cell scripted.libs db.ValueTypeOther (VBool true) = VInt k n) \/
   (exists k b, @scanning.cell scripted.libs db.ValueTypeOther (VBool true) = VFloat k b) \/
   (exists s, @scanning.cell scripted.libs db.ValueTypeOther (VBool true) = VString s)).
Proof.
  assert (VBool true <> Nil) as Hv by discriminate.
  split; [exact Hv|].
  exact (proj2 (@cell_is_null_number_or_string scripted.libs
                  (scanning.fresh db.ValueTypeOther) (VBool true)) Hv).
Defined.

(** A string scanned into a receiver of kind Other never fails. *)
Lemma NullAny_Scan_valid_and_errors_witness :
  (db.ValueTypeOther ∉ [db.ValueTypeBool; db.ValueTypeInt64; db.ValueTypeFloat64;
                        db.ValueTypeString]) /\
  (@db.NullAny_Scan scripted.libs (scanning.fresh db.ValueTypeOther)
     (VString (lit "x"))).2 = None.
Proof.
  assert (db.ValueTypeOther ∉ [db.ValueTypeBool; db.ValueTypeInt64;
                               db.ValueTypeFloat64; db.ValueTypeString]) as Hkind.
  { apply (bool_decide_unpack _). vm_compute. exact I. }
  split; [exact Hkind|].
  destruct (@NullAny_Scan_valid_and_errors scripted.libs
              (scanning.fresh db.ValueTypeOther) (VString (lit "x"))) as (_ & _ & Herr).
  by apply Herr.
Defined.
